(** * Context-free transaction checks: [CheckTransaction]

    A shallow embedding of [src/consensus/tx_check.cpp] and the properties
    of the checker that the specification states about it.

    Amounts ([CAmount], a signed 64-bit integer in the source) are integers
    of [Z]; every arithmetic operation on them is written with its
    two's-complement wrap-around.  The early [return state.Invalid(..)] of
    the source is an error monad; the monad also records, in program
    order, each arithmetic operation on an amount and each indexed access
    to [tx.vin], so that statements about the operations the checker
    performs can be made about the recorded trace. *)

From Stdlib Require Import ZArith Lia Sorted.
From Stdlib.Strings Require Import Byte.
From stdpp Require Import base decidable countable gmap list strings.

Local Open Scope Z_scope.

(** ** Signed 64-bit amounts *)

Definition CAmount : Type := Z.
Bind Scope Z_scope with CAmount.

Definition INT64_MIN : Z := - 2 ^ 63.
Definition INT64_MAX : Z := 2 ^ 63 - 1.

(** Reduction of an integer to the signed 64-bit range. *)
Definition wrap64 (z : Z) : Z := (z + 2 ^ 63) mod 2 ^ 64 - 2 ^ 63.

Definition add64 (a b : CAmount) : CAmount := wrap64 (a + b).
Definition neg64 (a : CAmount) : CAmount := wrap64 (- a).

Definition in_int64 (z : Z) : Prop := INT64_MIN <= z <= INT64_MAX.

(** ** Data model (primitives/transaction.h, as far as the checker reads it) *)

(** A 256-bit opaque blob, as the number it encodes. *)
Definition uint256 : Type := N.
Bind Scope N_scope with uint256.

Record COutPoint : Type := mkOutPoint {
  hash : uint256;
  n : N                              (* uint32_t *)
}.

Record CTxIn : Type := mkTxIn {
  prevout : COutPoint;
  scriptSig : list byte
}.

Record CTxOut : Type := mkTxOut {
  nValue : CAmount;
  scriptPubKey : list byte
}.

Record JSDescription : Type := mkJS {
  vpub_old : CAmount;
  vpub_new : CAmount;
  nullifiers : uint256 * uint256     (* std::array<uint256, 2> *)
}.

Record SpendDescription : Type := mkSpend {
  nullifier : uint256
}.

Record OutputDescription : Type := mkOutput {
  cmu : uint256
}.

Record CTransaction : Type := mkTx {
  vin : list CTxIn;
  vout : list CTxOut;
  valueBalance : CAmount;
  vShieldedSpend : list SpendDescription;
  vShieldedOutput : list OutputDescription;
  vJoinSplit : list JSDescription
}.

#[global] Instance COutPoint_eq_dec : EqDecision COutPoint.
Proof. solve_decision. Defined.

#[global] Instance COutPoint_countable : Countable COutPoint.
Proof.
  apply (inj_countable' (fun o => (hash o, n o))
                        (fun p => mkOutPoint (fst p) (snd p))).
  intros []; reflexivity.
Defined.

(** The elements of a [std::array<uint256, 2>], in iteration order. *)
Definition array2_elems (a : uint256 * uint256) : list uint256 := [a.1; a.2].

(** ** Declarations the checker uses from headers that are not part of the
    sources: the supply constant, the weight constants, the serializer and
    the two null tests.  They are parameters of the development. *)

Class Externals : Type := {
  MAX_MONEY : CAmount;
  WITNESS_SCALE_FACTOR : Z;
  MAX_BLOCK_WEIGHT : Z;
  (* ::GetSerializeSize(tx, PROTOCOL_VERSION | SERIALIZE_TRANSACTION_NO_WITNESS) *)
  GetSerializeSize : CTransaction -> Z;
  COutPoint_IsNull : COutPoint -> bool;
  uint256_IsNull : uint256 -> bool
}.

(** ** The checking monad *)

Inductive Event : Type :=
| EvAdd (acc operand : CAmount)      (* acc += operand *)
| EvNeg (v : CAmount)                (* -v *)
| EvIndex (i len : nat).             (* tx.vin[i], with tx.vin.size() = len *)

Inductive Result (A : Type) : Type :=
| Done (a : A)
| Invalid (reason : string)          (* return state.Invalid(.., reason) *)
| Undefined.                         (* out-of-bounds operator[] *)
Arguments Done {A} a.
Arguments Invalid {A} reason.
Arguments Undefined {A}.

Record Check (A : Type) : Type := mkCheck {
  trace : list Event;
  result : Result A
}.
Arguments mkCheck {A} trace result.
Arguments trace {A} c.
Arguments result {A} c.

Definition ret {A} (a : A) : Check A := mkCheck [] (Done a).

Definition reject {A} (reason : string) : Check A := mkCheck [] (Invalid reason).

Definition bind {A B} (m : Check A) (f : A -> Check B) : Check B :=
  match result m with
  | Done a => mkCheck (trace m ++ trace (f a)) (result (f a))
  | Invalid r => mkCheck (trace m) (Invalid r)
  | Undefined => mkCheck (trace m) Undefined
  end.

Declare Scope check_scope.
Delimit Scope check_scope with check.
Notation "'let*' x ':=' m 'in' k" := (bind m (fun x => k))
  (at level 10, x name, m at level 100, k at level 200) : check_scope.
Notation "m '>>' k" := (bind m (fun _ => k))
  (at level 65, right associativity) : check_scope.
Local Open Scope check_scope.

(** A range-based [for] whose body may return early; [s] is the state the
    body updates (a running total, a set). *)
Fixpoint for_each {A S} (body : S -> A -> Check S) (s : S) (l : list A)
  : Check S :=
  match l with
  | [] => ret s
  | a :: rest => let* s' := body s a in for_each body s' rest
  end.

(** The verdict of a check whose value is discarded: [return true]. *)
Abbreviation Valid := (Done tt).

Definition add_amount (acc operand : CAmount) : Check CAmount :=
  mkCheck [EvAdd acc operand] (Done (add64 acc operand)).

Definition neg_amount (v : CAmount) : Check CAmount :=
  mkCheck [EvNeg v] (Done (neg64 v)).

(** [v[i]] on a [std::vector]: undefined when [i] is out of bounds. *)
Definition vin_at (tx : CTransaction) (i : nat) : Check CTxIn :=
  mkCheck [EvIndex i (length (vin tx))]
          (match vin tx !! i with Some txin => Done txin | None => Undefined end).

(** [std::set::insert(k).second] together with the updated set. *)
Definition set_insert `{Countable K} (k : K) (s : gset K) : gset K * bool :=
  ({[ k ]} ∪ s, bool_decide (k ∉ s)).

Definition is_empty {A} (l : list A) : bool :=
  match l with [] => true | _ => false end.

Section Checker.
Context {ext : Externals}.

(** Modelled from the spec: [MoneyRange] (amount.h) is not part of the
    sources; the valid range of an amount is [[0, MAX_SUPPLY]]. *)
Definition MoneyRange (v : CAmount) : bool :=
  (0 <=? v) && (v <=? MAX_MONEY).

(** Modelled from the spec: [CTransaction::IsCoinBase]
    (primitives/transaction.h) is not part of the sources; a transaction
    is coinbase if its first transparent input's previous-output
    reference is the null sentinel. *)
Definition IsCoinBase (tx : CTransaction) : bool :=
  match vin tx with
  | txin :: _ => COutPoint_IsNull (prevout txin)
  | [] => false
  end.

(** *** Lines 13-19: basic checks that do not depend on any context *)
Definition check_basic (tx : CTransaction) : Check unit :=
  if is_empty (vin tx) && is_empty (vJoinSplit tx) && is_empty (vShieldedSpend tx)
  then reject "bad-txns-vin-empty"
  else if is_empty (vout tx) && is_empty (vJoinSplit tx) && is_empty (vShieldedOutput tx)
  then reject "bad-txns-vout-empty"
  else if ((GetSerializeSize tx * WITNESS_SCALE_FACTOR) mod 2 ^ 64 >? MAX_BLOCK_WEIGHT)%Z
  then reject "bad-txns-oversize"
  else ret tt.

(** *** Lines 23-32: body of the loop over [tx.vout] *)
Definition vout_body (nValueOut : CAmount) (txout : CTxOut) : Check CAmount :=
  if nValue txout <? 0 then reject "bad-txns-vout-negative"
  else if nValue txout >? MAX_MONEY then reject "bad-txns-vout-toolarge"
  else
    let* nValueOut := add_amount nValueOut (nValue txout) in
    if negb (MoneyRange nValueOut) then reject "bad-txns-txouttotal-toolarge"
    else ret nValueOut.

(** *** Lines 35-48: valueBalance *)
Definition check_valueBalance (tx : CTransaction) (nValueOut : CAmount)
  : Check CAmount :=
  if is_empty (vShieldedSpend tx) && is_empty (vShieldedOutput tx)
     && negb (valueBalance tx =? 0)
  then reject "bad-txns-valuebalance-nonzero"
  else if (valueBalance tx >? MAX_MONEY) || (valueBalance tx <? - MAX_MONEY)
  then reject "bad-txns-valuebalance-toolarge"
  else if valueBalance tx <=? 0 then
    let* negated := neg_amount (valueBalance tx) in
    let* nValueOut := add_amount nValueOut negated in
    if negb (MoneyRange nValueOut) then reject "bad-txns-txouttotal-toolarge"
    else ret nValueOut
  else ret nValueOut.

(** *** Lines 51-71: body of the first loop over [tx.vJoinSplit] *)
Definition joinsplit_body (nValueOut : CAmount) (joinsplit : JSDescription)
  : Check CAmount :=
  if vpub_old joinsplit <? 0 then reject "bad-txns-vpub_old-negative"
  else if vpub_new joinsplit <? 0 then reject "bad-txns-vpub_new-negative"
  else if vpub_old joinsplit >? MAX_MONEY then reject "bad-txns-vpub_old-toolarge"
  else if vpub_new joinsplit >? MAX_MONEY then reject "bad-txns-vpub_new-toolarge"
  else if negb (vpub_new joinsplit =? 0) && negb (vpub_old joinsplit =? 0)
  then reject "bad-txns-vpubs-both-nonzero"
  else
    let* nValueOut := add_amount nValueOut (vpub_old joinsplit) in
    if negb (MoneyRange nValueOut) then reject "bad-txns-txouttotal-toolarge"
    else ret nValueOut.

(** *** Lines 78-84: body of the second loop over [tx.vJoinSplit] *)
Definition valuein_body (nValueIn : CAmount) (it : JSDescription)
  : Check CAmount :=
  let* nValueIn := add_amount nValueIn (vpub_new it) in
  if negb (MoneyRange (vpub_new it)) || negb (MoneyRange nValueIn)
  then reject "bad-txns-txintotal-toolarge"
  else ret nValueIn.

(** *** Lines 87-93: positive valueBalance on the input side *)
Definition check_valueIn_sapling (tx : CTransaction) (nValueIn : CAmount)
  : Check CAmount :=
  if valueBalance tx >=? 0 then
    let* nValueIn := add_amount nValueIn (valueBalance tx) in
    if negb (MoneyRange nValueIn) then reject "bad-txns-txintotal-toolarge"
    else ret nValueIn
  else ret nValueIn.

(** *** Lines 100-120: the three duplicate checks *)
Definition dup_body `{Countable K} (reason : string) (seen : gset K) (k : K)
  : Check (gset K) :=
  let '(seen', inserted) := set_insert k seen in
  if negb inserted then reject reason else ret seen'.

Definition check_duplicate_inputs (tx : CTransaction) : Check (gset COutPoint) :=
  for_each (fun vInOutPoints txin =>
              dup_body "bad-txns-inputs-duplicate" vInOutPoints (prevout txin))
           ∅ (vin tx).

Definition check_duplicate_sprout (tx : CTransaction) : Check (gset uint256) :=
  for_each (fun vInSproutNullifiers joinsplit =>
              for_each (dup_body "bad-joinsplits-nullifiers-duplicate")
                       vInSproutNullifiers
                       (array2_elems (nullifiers joinsplit)))
           ∅ (vJoinSplit tx).

Definition check_duplicate_sapling (tx : CTransaction) : Check (gset uint256) :=
  for_each (fun vInSaplingNullifiers spend_desc =>
              dup_body "bad-spend-description-nullifiers-duplicate"
                       vInSaplingNullifiers (nullifier spend_desc))
           ∅ (vShieldedSpend tx).

(** *** Lines 122-140: coinbase and non-coinbase rules *)
Definition check_coinbase (tx : CTransaction) : Check unit :=
  let* in0 := vin_at tx 0 in
  if (length (scriptSig in0) <? 2)%nat then reject "bad-cb-length"
  else
    let* in0 := vin_at tx 0 in
    if (100 <? length (scriptSig in0))%nat then reject "bad-cb-length"
    else if (0 <? length (vShieldedSpend tx))%nat
    then reject "bad-cb-has-spend-description"
    else ret tt.

Definition check_not_coinbase (tx : CTransaction) : Check unit :=
  for_each (fun (_ : unit) txin =>
              if COutPoint_IsNull (prevout txin)
              then reject "bad-txns-prevout-null" else ret tt)
           tt (vin tx) >>
  for_each (fun (_ : unit) spend_desc =>
              if uint256_IsNull (nullifier spend_desc)
              then reject "bad-spend-description-nullifier-null" else ret tt)
           tt (vShieldedSpend tx).

Definition check_coinbase_rules (tx : CTransaction) : Check unit :=
  if IsCoinBase tx then check_coinbase tx else check_not_coinbase tx.

(** *** The checker *)
Definition CheckTransaction (tx : CTransaction) : Check unit :=
  check_basic tx >>
  let* nValueOut := for_each vout_body 0 (vout tx) in
  let* nValueOut := check_valueBalance tx nValueOut in
  let* nValueOut := for_each joinsplit_body nValueOut (vJoinSplit tx) in
  let* nValueIn := for_each valuein_body 0 (vJoinSplit tx) in
  let* nValueIn := check_valueIn_sapling tx nValueIn in
  check_duplicate_inputs tx >>
  check_duplicate_sprout tx >>
  check_duplicate_sapling tx >>
  check_coinbase_rules tx.

End Checker.

(** ** Prefixes of the checker

    [CheckTransaction] run up to the end of each pass of the
    specification (4.1 to 4.5); a transaction reaches a pass when the
    prefix before it ends in [Done]. *)

Section Prefixes.
Context {ext : Externals}.

Definition passes_4_1_to_4_2 (tx : CTransaction) : Check CAmount :=
  check_basic tx >> for_each vout_body 0 (vout tx).

Definition passes_4_1_to_4_3 (tx : CTransaction) : Check CAmount :=
  let* nValueOut := passes_4_1_to_4_2 tx in
  check_valueBalance tx nValueOut.

Definition pass_4_4 (tx : CTransaction) (nValueOut : CAmount)
  : Check (CAmount * CAmount) :=
  let* nValueOut := for_each joinsplit_body nValueOut (vJoinSplit tx) in
  let* nValueIn := for_each valuein_body 0 (vJoinSplit tx) in
  let* nValueIn := check_valueIn_sapling tx nValueIn in
  ret (nValueOut, nValueIn).

Definition passes_4_1_to_4_4 (tx : CTransaction) : Check (CAmount * CAmount) :=
  let* nValueOut := passes_4_1_to_4_3 tx in
  pass_4_4 tx nValueOut.

Definition pass_4_5 (tx : CTransaction) : Check unit :=
  check_duplicate_inputs tx >>
  check_duplicate_sprout tx >>
  check_duplicate_sapling tx >>
  ret tt.

Definition passes_4_1_to_4_5 (tx : CTransaction) : Check unit :=
  passes_4_1_to_4_4 tx >> pass_4_5 tx.

(** The rest of the checker from pass 4.5, 4.4 and 4.3 on. *)
Definition from_4_5 (tx : CTransaction) : Check unit :=
  check_duplicate_inputs tx >>
  check_duplicate_sprout tx >>
  check_duplicate_sapling tx >>
  check_coinbase_rules tx.

Definition from_4_4 (tx : CTransaction) (nValueOut : CAmount) : Check unit :=
  let* nValueOut := for_each joinsplit_body nValueOut (vJoinSplit tx) in
  let* nValueIn := for_each valuein_body 0 (vJoinSplit tx) in
  let* nValueIn := check_valueIn_sapling tx nValueIn in
  from_4_5 tx.

Definition from_4_3 (tx : CTransaction) (nValueOut : CAmount) : Check unit :=
  let* nValueOut := check_valueBalance tx nValueOut in
  from_4_4 tx nValueOut.

End Prefixes.

(** The variant of the specification (section 4.4): the pool balance delta
    is added to the input-side total only when it is strictly positive. *)

Section SpecVariant.
Context {ext : Externals}.

Definition check_valueIn_sapling_spec (tx : CTransaction) (nValueIn : CAmount)
  : Check CAmount :=
  if valueBalance tx >? 0 then
    let* nValueIn := add_amount nValueIn (valueBalance tx) in
    if negb (MoneyRange nValueIn) then reject "bad-txns-txintotal-toolarge"
    else ret nValueIn
  else ret nValueIn.

Definition CheckTransaction_spec (tx : CTransaction) : Check unit :=
  check_basic tx >>
  let* total_out := for_each vout_body 0 (vout tx) in
  let* total_out := check_valueBalance tx total_out in
  let* total_out := for_each joinsplit_body total_out (vJoinSplit tx) in
  let* total_in := for_each valuein_body 0 (vJoinSplit tx) in
  let* total_in := check_valueIn_sapling_spec tx total_in in
  check_duplicate_inputs tx >>
  check_duplicate_sprout tx >>
  check_duplicate_sapling tx >>
  check_coinbase_rules tx.

(** The second traversal of section 4.4 with the running total as its only
    test. *)
Definition valuein_body_total_only (nValueIn : CAmount) (it : JSDescription)
  : Check CAmount :=
  let* nValueIn := add_amount nValueIn (vpub_new it) in
  if negb (MoneyRange nValueIn) then reject "bad-txns-txintotal-toolarge"
  else ret nValueIn.

End SpecVariant.

(** ** Predicates and auxiliary definitions of the statements *)

Section Predicates.
Context {ext : Externals}.

(** The supply constant is a non-negative [CAmount]. *)
Definition MAX_MONEY_is_amount : Prop := 0 <= MAX_MONEY <= INT64_MAX.

(** The supply constant leaves room for one addition in 64 bits. *)
Definition amounts_fit : Prop := 0 <= MAX_MONEY /\ 2 * MAX_MONEY <= INT64_MAX.

Definition in_money_range (v : Z) : Prop := 0 <= v <= MAX_MONEY.

(** What holds of the operations on amounts that a run records. *)
Definition safe_event (e : Event) : Prop :=
  match e with
  | EvAdd acc operand =>
      in_money_range acc /\ in_money_range operand /\ in_int64 (acc + operand)
  | EvNeg v => - MAX_MONEY <= v <= MAX_MONEY /\ in_int64 (- v)
  | EvIndex _ _ => True
  end.

(** One checked accumulation step, [acc += x; if (!MoneyRange(acc)) return]. *)
Definition accumulate (code : string) (acc x : CAmount) : Check CAmount :=
  let* acc := add_amount acc x in
  if negb (MoneyRange acc) then reject code else ret acc.

(** What the first traversal establishes of a description it lets pass. *)
Definition joinsplit_amounts_ok (js : JSDescription) : Prop :=
  in_money_range (vpub_old js) /\ in_money_range (vpub_new js).

End Predicates.

(** ** Accounted totals, as mathematical integers *)

Definition sum_amounts {A} (f : A -> CAmount) (l : list A) : Z :=
  foldr (fun a acc => f a + acc) 0 l.

Definition out_total (tx : CTransaction) : Z :=
  sum_amounts nValue (vout tx)
  + (if valueBalance tx <=? 0 then - valueBalance tx else 0)
  + sum_amounts vpub_old (vJoinSplit tx).

Definition in_total (tx : CTransaction) : Z :=
  sum_amounts vpub_new (vJoinSplit tx)
  + (if valueBalance tx >=? 0 then valueBalance tx else 0).

(** ** The three key spaces of pass 4.5, in iteration order *)

Definition prevouts (tx : CTransaction) : list COutPoint :=
  map prevout (vin tx).

Definition sprout_nullifiers (tx : CTransaction) : list uint256 :=
  concat (map (fun js => array2_elems (nullifiers js)) (vJoinSplit tx)).

Definition sapling_nullifiers (tx : CTransaction) : list uint256 :=
  map nullifier (vShieldedSpend tx).

(** Some value occurs at two positions of the list. *)
Definition occurs_twice {A} (l : list A) : Prop :=
  exists (i j : nat) (x : A), i <> j /\ l !! i = Some x /\ l !! j = Some x.

Definition duplicate_codes : list string :=
  [ "bad-txns-inputs-duplicate";
    "bad-joinsplits-nullifiers-duplicate";
    "bad-spend-description-nullifiers-duplicate" ].

(** The reason codes of every other check. *)
Definition other_codes : list string :=
  [ "bad-txns-vin-empty"; "bad-txns-vout-empty"; "bad-txns-oversize";
    "bad-txns-vout-negative"; "bad-txns-vout-toolarge";
    "bad-txns-txouttotal-toolarge";
    "bad-txns-valuebalance-nonzero"; "bad-txns-valuebalance-toolarge";
    "bad-txns-vpub_old-negative"; "bad-txns-vpub_new-negative";
    "bad-txns-vpub_old-toolarge"; "bad-txns-vpub_new-toolarge";
    "bad-txns-vpubs-both-nonzero"; "bad-txns-txintotal-toolarge";
    "bad-cb-length"; "bad-cb-has-spend-description";
    "bad-txns-prevout-null"; "bad-spend-description-nullifier-null" ].

(** A check that either passes or rejects with one of the given reason
    codes; in particular its result is defined. *)
Definition ends_within {A} (codes : list string) (m : Check A) : Prop :=
  match result m with
  | Done _ => True
  | Invalid r => r ∈ codes
  | Undefined => False
  end.

(** The per-amount tests of the first traversal (lines 53-63). *)
Definition per_amount_checks_pass {ext : Externals} (js : JSDescription) : bool :=
  negb (vpub_old js <? 0) && negb (vpub_new js <? 0)
  && negb (vpub_old js >? MAX_MONEY) && negb (vpub_new js >? MAX_MONEY).

Definition index_in_bounds (e : Event) : Prop :=
  match e with
  | EvIndex i len => (i < len)%nat
  | _ => True
  end.

Definition is_index (e : Event) : Prop :=
  match e with
  | EvIndex _ _ => True
  | _ => False
  end.

(** ** A concrete instance of the external declarations, used to evaluate
    the checker on examples. *)

Definition sample_externals : Externals := {|
  MAX_MONEY := 21000000 * 100000000;
  WITNESS_SCALE_FACTOR := 4;
  MAX_BLOCK_WEIGHT := 4000000;
  GetSerializeSize := fun tx =>
    10 + sum_amounts (fun i => 41 + Z.of_nat (length (scriptSig i))) (vin tx)
       + sum_amounts (fun o => 9 + Z.of_nat (length (scriptPubKey o))) (vout tx)
       + 1802 * Z.of_nat (length (vJoinSplit tx))
       + 384 * Z.of_nat (length (vShieldedSpend tx))
       + 948 * Z.of_nat (length (vShieldedOutput tx));
  COutPoint_IsNull := fun o => (hash o =? 0)%N && (n o =? 4294967295)%N;
  uint256_IsNull := fun u => (u =? 0)%N
|}.

(** ** Example transactions *)

Definition outpoint_a : COutPoint := mkOutPoint 5 0.
Definition outpoint_b : COutPoint := mkOutPoint 5 1.
Definition outpoint_null : COutPoint := mkOutPoint 0 4294967295.

(** The same previous output spent twice, and no output at all. *)
Definition tx_twice_no_output : CTransaction :=
  mkTx [mkTxIn outpoint_a []; mkTxIn outpoint_a []] [] 0 [] [] [].

(** The same previous output spent twice, with an output. *)
Definition tx_twice : CTransaction :=
  mkTx [mkTxIn outpoint_a []; mkTxIn outpoint_a []] [mkTxOut 5000 []] 0 [] [] [].

(** Value moving in every direction the checker accounts for. *)
Definition tx_mixed : CTransaction :=
  mkTx [mkTxIn outpoint_a []; mkTxIn outpoint_b []]
       [mkTxOut 5000 []; mkTxOut 70 []]
       (-300)
       [mkSpend 7] [mkOutput 1]
       [mkJS 40 0 (7, 8)%N; mkJS 0 90 (9, 10)%N].

(** A zero balance delta next to join-split descriptions. *)
Definition tx_zero_delta : CTransaction :=
  mkTx [mkTxIn outpoint_a []] [mkTxOut 5000 []] 0 [] []
       [mkJS 40 0 (7, 8)%N; mkJS 0 90 (9, 10)%N].

(** A balance delta above the supply, without second-generation
    descriptions. *)
Definition tx_delta_no_sapling : CTransaction :=
  mkTx [mkTxIn outpoint_a []] [mkTxOut 5000 []] (21000000 * 100000000 + 1)
       [] [] [].

(** A description that fails a per-amount test, followed by one that moves
    value in both directions. *)
Definition tx_negative_then_both : CTransaction :=
  mkTx [mkTxIn outpoint_a []] [] 0 [] []
       [mkJS (-1) 0 (1, 2)%N; mkJS 1 1 (3, 4)%N].

(** A description that passes, followed by one that moves value in both
    directions. *)
Definition tx_good_then_both : CTransaction :=
  mkTx [mkTxIn outpoint_a []] [] 0 [] []
       [mkJS 40 0 (1, 2)%N; mkJS 1 1 (3, 4)%N].

(** Coinbase transactions with an unlocking script of the given length. *)
Definition tx_coinbase (script_len : nat) : CTransaction :=
  mkTx [mkTxIn outpoint_null (repeat x00 script_len)] [mkTxOut 5000 []] 0
       [] [] [].

(** ** What the checker accepts, stated without the checker *)

Section Acceptance.
Context {ext : Externals}.

(** Lines 13-19. *)
Definition shape_ok (tx : CTransaction) : Prop :=
  ~ (vin tx = [] /\ vJoinSplit tx = [] /\ vShieldedSpend tx = []) /\
  ~ (vout tx = [] /\ vJoinSplit tx = [] /\ vShieldedOutput tx = []) /\
  (GetSerializeSize tx * WITNESS_SCALE_FACTOR) mod 2 ^ 64 <= MAX_BLOCK_WEIGHT.

(** Lines 53-66: both amounts in range, and at most one of them non-zero. *)
Definition joinsplit_ok (js : JSDescription) : Prop :=
  in_money_range (vpub_old js) /\ in_money_range (vpub_new js) /\
  (vpub_old js = 0 \/ vpub_new js = 0).

(** Lines 22-93. *)
Definition values_ok (tx : CTransaction) : Prop :=
  Forall (fun txout => in_money_range (nValue txout)) (vout tx) /\
  (vShieldedSpend tx = [] -> vShieldedOutput tx = [] -> valueBalance tx = 0) /\
  - MAX_MONEY <= valueBalance tx <= MAX_MONEY /\
  Forall joinsplit_ok (vJoinSplit tx) /\
  out_total tx <= MAX_MONEY /\
  in_total tx <= MAX_MONEY.

(** Lines 22-32: what lets the loop over the outputs pass. *)
Definition vout_ok (tx : CTransaction) : Prop :=
  Forall (fun txout => in_money_range (nValue txout)) (vout tx) /\
  sum_amounts nValue (vout tx) <= MAX_MONEY.

(** Lines 35-48: what lets the balance delta pass after the outputs. *)
Definition delta_ok (tx : CTransaction) : Prop :=
  (vShieldedSpend tx = [] -> vShieldedOutput tx = [] -> valueBalance tx = 0) /\
  - MAX_MONEY <= valueBalance tx <= MAX_MONEY /\
  sum_amounts nValue (vout tx)
  + (if valueBalance tx <=? 0 then - valueBalance tx else 0) <= MAX_MONEY.

(** Lines 100-120. *)
Definition keys_distinct (tx : CTransaction) : Prop :=
  NoDup (prevouts tx) /\ NoDup (sprout_nullifiers tx) /\
  NoDup (sapling_nullifiers tx).

(** Lines 124-129. *)
Definition coinbase_ok (tx : CTransaction) : Prop :=
  match vin tx with
  | in0 :: _ =>
      (2 <= length (scriptSig in0) <= 100)%nat /\ vShieldedSpend tx = []
  | [] => False
  end.

(** Lines 133-139. *)
Definition ordinary_ok (tx : CTransaction) : Prop :=
  Forall (fun txin => COutPoint_IsNull (prevout txin) = false) (vin tx) /\
  Forall (fun spend_desc => uint256_IsNull (nullifier spend_desc) = false)
         (vShieldedSpend tx).

Definition role_ok (tx : CTransaction) : Prop :=
  if IsCoinBase tx then coinbase_ok tx else ordinary_ok tx.

Definition acceptable (tx : CTransaction) : Prop :=
  shape_ok tx /\ values_ok tx /\ keys_distinct tx /\ role_ok tx.

End Acceptance.

(** ** The reason codes of each block of the checker *)

Definition basic_codes : list string :=
  [ "bad-txns-vin-empty"; "bad-txns-vout-empty"; "bad-txns-oversize" ].

Definition vout_codes : list string :=
  [ "bad-txns-vout-negative"; "bad-txns-vout-toolarge";
    "bad-txns-txouttotal-toolarge" ].

Definition valueBalance_codes : list string :=
  [ "bad-txns-valuebalance-nonzero"; "bad-txns-valuebalance-toolarge";
    "bad-txns-txouttotal-toolarge" ].

Definition joinsplit_codes : list string :=
  [ "bad-txns-vpub_old-negative"; "bad-txns-vpub_new-negative";
    "bad-txns-vpub_old-toolarge"; "bad-txns-vpub_new-toolarge";
    "bad-txns-vpubs-both-nonzero"; "bad-txns-txouttotal-toolarge" ].

Definition valuein_codes : list string := [ "bad-txns-txintotal-toolarge" ].

Definition role_codes : list string :=
  [ "bad-cb-length"; "bad-cb-has-spend-description";
    "bad-txns-prevout-null"; "bad-spend-description-nullifier-null" ].

(** Every code a check after lines 13-19 can return. *)
Definition later_codes : list string :=
  vout_codes ++ valueBalance_codes ++ joinsplit_codes ++ valuein_codes
  ++ duplicate_codes ++ role_codes.

(** The whole vocabulary. *)
Definition reason_codes : list string := basic_codes ++ later_codes.

(** The codes of the checks up to line 93, and of the checks from line 35,
    line 51 and line 100 on. *)
Definition value_codes : list string :=
  basic_codes ++ vout_codes ++ valueBalance_codes ++ joinsplit_codes
  ++ valuein_codes.

Definition codes_from_4_3 : list string :=
  valueBalance_codes ++ joinsplit_codes ++ valuein_codes ++ duplicate_codes
  ++ role_codes.

Definition codes_from_4_4 : list string :=
  joinsplit_codes ++ valuein_codes ++ duplicate_codes ++ role_codes.

Definition codes_from_4_5 : list string := duplicate_codes ++ role_codes.

(** * The nonce search of [MineBlock] (test/util/mining.cpp, lines 29-71) *)

(** Conversion of an integer to [int] (32 bits, two's complement). *)
Definition to_int (z : Z) : Z := (z + 2 ^ 31) mod 2 ^ 32 - 2 ^ 31.

Definition nInnerLoopCount : Z := 65535.       (* 0xFFFF *)
Definition nInnerLoopMask : Z := 65535.        (* 0xFFFF *)

(** What the loop uses from headers that are not part of the sources. *)
Class MinerExternals : Type := {
  (* block->nNonce.GetUint64(0) *)
  GetUint64_0 : uint256 -> Z;
  (* ArithToUint256(UintToArith256(block->nNonce) + 1) *)
  nonce_increment : uint256 -> uint256;
  (* EhBasicSolveUncancellable(n, k, curr_state, validBlock) on the header
     with the given nonce: whether a solution passed CheckProofOfWork, and
     the last solution the callback stored in block->nSolution, if any *)
  EhBasicSolveUncancellable : uint256 -> bool * option (list byte)
}.

(** The state of the search when the loop is left; [solver_calls] lists the
    nonces the solver was run on, in order. *)
Record MineSearch : Type := mkMineSearch {
  nMaxTries_left : nat;
  nNonce : uint256;
  nSolution : list byte;
  found : bool;
  solver_calls : list uint256
}.

Section Mining.
Context {miner : MinerExternals}.

(** [(int)block->nNonce.GetUint64(0) & nInnerLoopMask] *)
Definition inner_loop_position (nonce : uint256) : Z :=
  Z.land (to_int (GetUint64_0 nonce)) nInnerLoopMask.

(** Lines 51-71; the recursion is on [nMaxTries], which every iteration
    decrements. *)
Fixpoint mine_loop (nMaxTries : nat) (nonce : uint256) (solution : list byte)
  : MineSearch :=
  match nMaxTries with
  | O => mkMineSearch O nonce solution false []
  | S tries =>
      if inner_loop_position nonce <? nInnerLoopCount then
        let nonce' := nonce_increment nonce in
        let '(ok, stored) := EhBasicSolveUncancellable nonce' in
        let solution' := default solution stored in
        if ok then mkMineSearch tries nonce' solution' true [nonce']
        else
          let r := mine_loop tries nonce' solution' in
          mkMineSearch (nMaxTries_left r) (nNonce r) (nSolution r) (found r)
                       (nonce' :: solver_calls r)
      else mkMineSearch (S tries) nonce solution false []
  end.

(** The nonces reached from [nonce] by one to [k] increments. *)
Fixpoint successors (k : nat) (nonce : uint256) : list uint256 :=
  match k with
  | O => []
  | S k' => nonce_increment nonce :: successors k' (nonce_increment nonce)
  end.

(** The low 64 bits of a nonce are a 64-bit number and increment with it. *)
Definition nonce_laws : Prop :=
  (forall nonce, 0 <= GetUint64_0 nonce < 2 ^ 64) /\
  (forall nonce,
     GetUint64_0 (nonce_increment nonce) = (GetUint64_0 nonce + 1) mod 2 ^ 64).

End Mining.

(** An instance: nonces as numbers below [2^256], a solver that succeeds on
    the nonces divisible by 1000. *)
Definition sample_miner : MinerExternals := {|
  GetUint64_0 := fun nonce => Z.of_N nonce mod 2 ^ 64;
  nonce_increment := fun nonce => ((nonce + 1) mod 2 ^ 256)%N;
  EhBasicSolveUncancellable := fun nonce =>
    if (nonce mod 1000 =? 0)%N then (true, Some [x01]) else (false, Some [x00])
|}.

(** * Parameter files (fetchparams.cpp) *)

Inductive LogLine : Type :=
| LogVerifying                       (* "Verifying %s...\n" *)
| LogDownloading                     (* "Downloading %s...\n" *)
| LogStart                           (* "[0%%]..." *)
| LogPercent (percentageDone : Z)    (* "[%d%%]..." *)
| LogDone                            (* "[DONE].\n" *)
| LogChecksumMismatch (digest : string)
| LogCouldNotOpen
| LogCouldNotWrite
| LogCurlError (code : Z).

Inductive FetchEvent : Type :=
| EvLog (line : LogLine)
| EvShowProgress (title : string) (nProgress : Z)
| EvInterruptionPoint                (* boost::this_thread::interruption_point() *)
| EvSha256Update (buffer : list byte)
| EvFclose
| EvRemove                           (* fs::remove(path) *)
| EvCurlPerform
| EvCurlCleanup.

(** What the file uses from libsodium and from the floating-point unit. *)
Class FetchExternals : Type := {
  crypto_hash_sha256_BYTES : nat;
  crypto_hash_sha256_state : Type;
  crypto_hash_sha256_init : crypto_hash_sha256_state;
  crypto_hash_sha256_update :
    crypto_hash_sha256_state -> list byte -> crypto_hash_sha256_state;
  crypto_hash_sha256_final : crypto_hash_sha256_state -> list byte;
  (* (int)((double)a / (double)b * 100) *)
  percent_of : Z -> Z -> Z
}.

(** [a + b] on [int]. *)
Definition add_int (a b : Z) : Z := to_int (a + b).

(** [std::max(1, std::min(99, ratio))] *)
Definition clamp_percentage (ratio : Z) : Z := Z.max 1 (Z.min 99 ratio).

(** Lines 53-58 and 86-91: the report of one step, and the new value of the
    global [reportDone]. *)
Definition report_progress (title : string) (reportDone percentageDone : Z)
  : Z * list FetchEvent :=
  if reportDone <? percentageDone ÷ 10
  then (percentageDone ÷ 10,
        [EvLog (LogPercent percentageDone); EvShowProgress title percentageDone])
  else (reportDone, [EvShowProgress title percentageDone]).

(** [strprintf("%02x", hash[i])] *)
Definition hex_digit (d : N) : Ascii.ascii :=
  nth (N.to_nat d) (String.list_ascii_of_string "0123456789abcdef")
      (Ascii.ascii_of_N 48).

Definition hex_byte (b : byte) : list Ascii.ascii :=
  [hex_digit (Byte.to_N b / 16); hex_digit (Byte.to_N b mod 16)].

(** The inverse of [hex_digit] on the characters it produces. *)
Definition unhex_digit (c : Ascii.ascii) : option N :=
  let n := Ascii.N_of_ascii c in
  if (48 <=? n)%N && (n <=? 57)%N then Some (n - 48)%N
  else if (97 <=? n)%N && (n <=? 102)%N then Some (n - 87)%N
  else None.

Fixpoint unhex (cs : list Ascii.ascii) : option (list byte) :=
  match cs with
  | [] => Some []
  | hi :: lo :: rest =>
      match unhex_digit hi, unhex_digit lo, unhex rest with
      | Some h, Some l, Some bs =>
          match Byte.of_N (16 * h + l) with
          | Some b => Some (b :: bs)
          | None => None
          end
      | _, _, _ => None
      end
  | [_] => None
  end.

Inductive Outcome (A : Type) : Type :=
| Returned (a : A)
| Threw.                             (* an exception leaves the function *)
Arguments Returned {A} a.
Arguments Threw {A}.

Record Run (A : Type) : Type := mkRun {
  outcome : Outcome A;
  reportDone_after : Z;              (* the global reportDone *)
  events : list FetchEvent
}.
Arguments mkRun {A} outcome reportDone_after events.
Arguments outcome {A} r.
Arguments reportDone_after {A} r.
Arguments events {A} r.

(** The percentages a run logs, the values it passes to
    [uiInterface.ShowProgress], and the buffers it hashes, in order. *)
Definition logged_percentages (evs : list FetchEvent) : list Z :=
  omap (fun e => match e with EvLog (LogPercent p) => Some p | _ => None end) evs.

Definition shown_progress (evs : list FetchEvent) : list Z :=
  omap (fun e => match e with EvShowProgress _ p => Some p | _ => None end) evs.

Definition hashed_buffers (evs : list FetchEvent) : list (list byte) :=
  omap (fun e => match e with EvSha256Update b => Some b | _ => None end) evs.

(** The reads before the first one that returns 0. *)
Fixpoint reads_before_eof (reads : list (list byte)) : list (list byte) :=
  match reads with
  | [] => []
  | buffer :: rest =>
      if Z.of_nat (length buffer) =? 0 then [] else buffer :: reads_before_eof rest
  end.

Definition lower_hex (c : Ascii.ascii) : Prop :=
  In c (String.list_ascii_of_string "0123456789abcdef").

(** The events of the two progress loops. *)
Definition progress_event (e : FetchEvent) : Prop :=
  match e with
  | EvLog (LogPercent _) | EvShowProgress _ _ | EvInterruptionPoint
  | EvSha256Update _ => True
  | _ => False
  end.

(** [percentageDone/10] *)
Definition decile (percentageDone : Z) : Z := percentageDone ÷ 10.

(** What a sequence of reports keeps, from [reportDone] before it to
    [reportDone'] after it: the values it shows are in [[1, 99]]; it logs a
    percentage only when its decile is above [reportDone], so the logged
    deciles increase and [reportDone] grows by at least one per log line. *)
Definition progress_summary (reportDone reportDone' : Z) (evs : list FetchEvent)
  : Prop :=
  reportDone <= reportDone' <= 9 /\
  Forall progress_event evs /\
  Forall (fun p => 1 <= p <= 99) (shown_progress evs) /\
  Z.of_nat (length (logged_percentages evs)) <= reportDone' - reportDone /\
  Forall (fun p => reportDone < decile p <= reportDone') (logged_percentages evs) /\
  StronglySorted Z.lt (map decile (logged_percentages evs)).

Section FetchParams.
Context {fx : FetchExternals}.

(** Lines 65-67: the digest as text. *)
Definition hex_chars (hash : list byte) : list Ascii.ascii :=
  concat (map (fun i => hex_byte (nth i hash x00)) (seq 0 crypto_hash_sha256_BYTES)).

Definition hex_digest (hash : list byte) : string :=
  String.string_of_list_ascii (hex_chars hash).

(** Lines 47-59.  [reads] are the buffers the successive calls of [fread]
    fill; the loop ends at the first call that returns 0, which is the end
    of the list or an empty buffer.  A buffer holds at most [BUFSIZ] bytes,
    so its length is the [int] the source keeps in [bytesRead]. *)
Fixpoint verify_loop (title : string) (reads : list (list byte))
         (sha_state : crypto_hash_sha256_state) (soFar totalBytes reportDone : Z)
  : crypto_hash_sha256_state * Z * list FetchEvent :=
  match reads with
  | [] => (sha_state, reportDone, [])
  | buffer :: rest =>
      let bytesRead := Z.of_nat (length buffer) in
      if bytesRead =? 0 then (sha_state, reportDone, [])
      else
        let sha_state := crypto_hash_sha256_update sha_state buffer in
        let soFar := add_int soFar bytesRead in
        let percentageDone := clamp_percentage (percent_of soFar totalBytes) in
        let '(reportDone, report) := report_progress title reportDone percentageDone in
        let '(sha_state, reportDone, later) :=
          verify_loop title rest sha_state soFar totalBytes reportDone in
        (sha_state, reportDone,
         EvInterruptionPoint :: EvSha256Update buffer :: report ++ later)
  end.

(** Lines 27-79.  [file] is the result of [fsbridge::fopen]: [None] for a
    null pointer, otherwise the reads of the stream; [file_size] is the
    result of [fs::file_size], [None] when it throws. *)
Definition VerifyParams (filename : string) (file : option (list (list byte)))
           (file_size : option Z) (sha256expected : string) : Run bool :=
  match file_size with
  | None => mkRun Threw 0 []
  | Some size =>
      let totalBytes := to_int size in
      match file with
      | Some reads =>
          let '(sha_state, reportDone, loop_events) :=
            verify_loop ("Verifying " ++ filename) reads
                        crypto_hash_sha256_init 0 totalBytes 0 in
          let hash := crypto_hash_sha256_final sha_state in
          let before :=
            [EvLog LogVerifying; EvLog LogStart] ++ loop_events
            ++ [EvLog LogDone; EvFclose] in
          if negb (String.eqb sha256expected (hex_digest hash))
          then mkRun (Returned false) reportDone
                     (before ++ [EvRemove; EvLog (LogChecksumMismatch (hex_digest hash))])
          else mkRun (Returned true) reportDone before
      | None => mkRun (Returned false) 0 [EvLog LogCouldNotOpen]
      end
  end.

(** Lines 81-94; the first component is the return value. *)
Definition xferinfo (filename : string) (reportDone dltotal dlnow : Z)
  : Z * Z * list FetchEvent :=
  if 0 <? dlnow then
    let percentageDone := clamp_percentage (percent_of dlnow dltotal) in
    let '(reportDone, report) :=
      report_progress ("Downloading " ++ filename) reportDone percentageDone in
    (0, reportDone, EvInterruptionPoint :: report)
  else (0, reportDone, [EvInterruptionPoint]).

(** The progress callbacks of one transfer, [(dltotal, dlnow)] each, as long
    as the callback returns 0. *)
Fixpoint transfer_callbacks (filename : string) (calls : list (Z * Z))
         (reportDone : Z) : Z * list FetchEvent :=
  match calls with
  | [] => (reportDone, [])
  | (dltotal, dlnow) :: rest =>
      let '(ret, reportDone, evs) := xferinfo filename reportDone dltotal dlnow in
      if ret =? 0 then
        let '(reportDone, later) := transfer_callbacks filename rest reportDone in
        (reportDone, evs ++ later)
      else (reportDone, evs)
  end.

(** Lines 96-133.  [curl] is whether [curl_easy_init] returned a handle,
    [file] whether [fsbridge::fopen] returned a stream, [calls] the progress
    callbacks of [curl_easy_perform] and [ret] its result ([CURLE_OK] is
    0). *)
Definition FetchParams (filename : string) (curl file : bool)
           (calls : list (Z * Z)) (ret : Z) : Run bool :=
  if curl then
    if file then
      let '(reportDone, progress) := transfer_callbacks filename calls 0 in
      let before :=
        [EvLog LogDownloading; EvLog LogStart; EvCurlPerform] ++ progress
        ++ [EvFclose] in
      if negb (ret =? 0)
      then mkRun (Returned false) reportDone (before ++ [EvLog (LogCurlError ret)])
      else mkRun (Returned true) reportDone
                 (before ++ [EvCurlCleanup; EvLog LogDone])
    else mkRun (Returned false) 0
               [EvLog LogDownloading; EvLog LogStart; EvLog LogCouldNotWrite]
  else mkRun (Returned true) 0 [].

End FetchParams.

(** An instance: a 4-byte "digest" that is the first four bytes hashed, and
    integer percentages. *)
Definition sample_fetch : FetchExternals := {|
  crypto_hash_sha256_BYTES := 4;
  crypto_hash_sha256_state := list byte;
  crypto_hash_sha256_init := [];
  crypto_hash_sha256_update := fun st buffer => st ++ buffer;
  crypto_hash_sha256_final := fun st => take 4 (st ++ [x00; x00; x00; x00]);
  percent_of := fun a b => if b =? 0 then 0 else a * 100 ÷ b
|}.

(** ** More example inputs *)

(** The sample declarations with the largest supply a [CAmount] can hold. *)
Definition wide_externals : Externals := {|
  MAX_MONEY := 9223372036854775807;
  WITNESS_SCALE_FACTOR := 4;
  MAX_BLOCK_WEIGHT := 4000000;
  GetSerializeSize := @GetSerializeSize sample_externals;
  COutPoint_IsNull := @COutPoint_IsNull sample_externals;
  uint256_IsNull := @uint256_IsNull sample_externals
|}.

(** Two outputs of [2^63 - 1] each: their 64-bit sum wraps around. *)
Definition tx_two_full_outputs : CTransaction :=
  mkTx [mkTxIn outpoint_a []]
       [mkTxOut 9223372036854775807 []; mkTxOut 9223372036854775807 []]
       0 [] [] [].

(** A null previous-output reference on the second input. *)
Definition tx_null_second_input : CTransaction :=
  mkTx [mkTxIn outpoint_a []; mkTxIn outpoint_null []] [mkTxOut 5000 []] 0
       [] [] [].

(** Two descriptions that each claim the whole supply as inflow. *)
Definition tx_inflow_overflow : CTransaction :=
  mkTx [mkTxIn outpoint_a []] [mkTxOut 5000 []] 0 [] []
       [mkJS 0 2100000000000000 (1, 2)%N; mkJS 0 2100000000000000 (3, 4)%N].

(** A negative amount on the second output. *)
Definition tx_negative_second_output : CTransaction :=
  mkTx [mkTxIn outpoint_a []] [mkTxOut 5000 []; mkTxOut (-1) []] 0 [] [] [].

(** ** Monad laws and inversion lemmas *)

Section MonadFacts.
Context {A B C : Type}.

Lemma result_bind (m : Check A) (f : A -> Check B) :
  result (bind m f) =
  match result m with
  | Done a => result (f a)
  | Invalid r => Invalid r
  | Undefined => Undefined
  end.
Proof. unfold bind. destruct (result m); reflexivity. Qed.

Lemma trace_bind (m : Check A) (f : A -> Check B) :
  trace (bind m f) =
  trace m ++ match result m with Done a => trace (f a) | _ => [] end.
Proof.
  unfold bind. destruct (result m); simpl; rewrite ?app_nil_r; reflexivity.
Qed.

Lemma bind_Done (m : Check A) (f : A -> Check B) (b : B) :
  result (bind m f) = Done b <->
  exists a, result m = Done a /\ result (f a) = Done b.
Proof.
  rewrite result_bind. split.
  - destruct (result m) as [a| |]; try discriminate. eauto.
  - intros (a & -> & H). exact H.
Qed.

Lemma bind_Invalid (m : Check A) (f : A -> Check B) (r : string) :
  result (bind m f) = Invalid r <->
  result m = Invalid r \/ exists a, result m = Done a /\ result (f a) = Invalid r.
Proof.
  rewrite result_bind. split.
  - destruct (result m) as [a| |]; try discriminate.
    + intros H. right. exists a. split; [reflexivity | exact H].
    + intros [= ->]. left. reflexivity.
  - intros [-> | (a & -> & H)]; auto.
Qed.

Lemma bind_assoc (m : Check A) (f : A -> Check B) (g : B -> Check C) :
  bind (bind m f) g = bind m (fun a => bind (f a) g).
Proof.
  destruct m as [t [a| |]]; unfold bind; simpl; try reflexivity.
  destruct (f a) as [t' [b| |]]; simpl; rewrite ?app_assoc; reflexivity.
Qed.

Lemma Forall_trace_bind (P : Event -> Prop) (m : Check A) (f : A -> Check B) :
  Forall P (trace m) ->
  (forall a, result m = Done a -> Forall P (trace (f a))) ->
  Forall P (trace (bind m f)).
Proof.
  intros Hm Hf. rewrite trace_bind. apply Forall_app. split; [exact Hm|].
  destruct (result m); auto.
Qed.

End MonadFacts.

(** Invariant rule for loops: [I] holds of the loop state, [P] of every
    recorded event. *)
Lemma for_each_inv {A S} (I : S -> Prop) (P : Event -> Prop)
      (body : S -> A -> Check S) (l : list A) :
  (forall s a, a ∈ l -> I s ->
     Forall P (trace (body s a)) /\
     forall s', result (body s a) = Done s' -> I s') ->
  forall s, I s ->
    Forall P (trace (for_each body s l)) /\
    forall s', result (for_each body s l) = Done s' -> I s'.
Proof.
  induction l as [|a l IH]; intros Hbody s Hs; simpl.
  - split; [constructor|]. intros s' [= <-]. exact Hs.
  - destruct (Hbody s a) as [Ht Hr]; [left | exact Hs |].
    assert (Hl : forall s a0, a0 ∈ l -> I s ->
              Forall P (trace (body s a0)) /\
              forall s', result (body s a0) = Done s' -> I s').
    { intros s0 a0 Hin. apply Hbody. right. exact Hin. }
    split.
    + apply Forall_trace_bind; [exact Ht|].
      intros s1 Hs1. apply (IH Hl s1 (Hr s1 Hs1)).
    + intros s' Hdone. apply bind_Done in Hdone as (s1 & Hs1 & Hrest).
      exact (proj2 (IH Hl s1 (Hr s1 Hs1)) s' Hrest).
Qed.

(** ** Arithmetic on 64-bit amounts *)

Lemma wrap64_in_range (z : Z) : in_int64 z -> wrap64 z = z.
Proof.
  unfold in_int64, INT64_MIN, INT64_MAX, wrap64. intros H.
  rewrite Z.mod_small; lia.
Qed.

Lemma wrap64_range (z : Z) : in_int64 (wrap64 z).
Proof.
  unfold in_int64, INT64_MIN, INT64_MAX, wrap64.
  pose proof (Z.mod_pos_bound (z + 2 ^ 63) (2 ^ 64) ltac:(lia)). lia.
Qed.

Lemma add64_exact (a b : Z) : in_int64 (a + b) -> add64 a b = a + b.
Proof. apply wrap64_in_range. Qed.

Lemma neg64_exact (a : Z) : in_int64 (- a) -> neg64 a = - a.
Proof. apply wrap64_in_range. Qed.

(** ** The value accounting of passes 4.2 to 4.4 *)

Section Accounting.
Context {ext : Externals}.


Lemma MoneyRange_spec (v : CAmount) : MoneyRange v = true <-> in_money_range v.
Proof. unfold MoneyRange, in_money_range. lia. Qed.

Lemma MoneyRange_false (v : CAmount) : MoneyRange v = false <-> ~ in_money_range v.
Proof. rewrite <- MoneyRange_spec. destruct (MoneyRange v); intuition congruence. Qed.


Lemma amounts_fit_is_amount : amounts_fit -> MAX_MONEY_is_amount.
Proof. unfold amounts_fit, MAX_MONEY_is_amount, INT64_MAX. lia. Qed.

Lemma in_money_range_add (a b : Z) :
  amounts_fit -> in_money_range a -> in_money_range b -> in_int64 (a + b).
Proof.
  unfold amounts_fit, in_money_range, in_int64, INT64_MIN, INT64_MAX. lia.
Qed.

Lemma in_money_range_neg (v : Z) :
  MAX_MONEY_is_amount -> - MAX_MONEY <= v <= MAX_MONEY -> in_int64 (- v).
Proof. unfold MAX_MONEY_is_amount, in_int64, INT64_MIN, INT64_MAX. lia. Qed.


(** A sum of two amounts in range that wraps around is negative, so the
    range check after the addition sees exactly whether the sum is in
    range. *)
Lemma MoneyRange_add64 (acc x : CAmount) :
  MAX_MONEY_is_amount -> in_money_range acc -> in_money_range x ->
  MoneyRange (add64 acc x) = MoneyRange (acc + x) /\
  (MoneyRange (acc + x) = true -> add64 acc x = acc + x).
Proof.
  unfold MAX_MONEY_is_amount, in_money_range, INT64_MAX. intros Hm Ha Hx.
  destruct (Z_le_gt_dec (acc + x) (2 ^ 63 - 1)) as [Hle|Hgt].
  - rewrite add64_exact by (unfold in_int64, INT64_MIN, INT64_MAX; lia).
    split; reflexivity.
  - assert (Hwrap : add64 acc x = acc + x - 2 ^ 64).
    { unfold add64, wrap64.
      replace (acc + x + 2 ^ 63) with (acc + x - 2 ^ 63 + 1 * 2 ^ 64) by lia.
      rewrite Z.mod_add by lia. rewrite Z.mod_small; lia. }
    assert (Hf : MoneyRange (acc + x) = false) by (unfold MoneyRange; lia).
    rewrite Hwrap, Hf. split; [unfold MoneyRange; lia | discriminate].
Qed.

Lemma accumulate_result code acc x :
  MAX_MONEY_is_amount -> in_money_range acc -> in_money_range x ->
  result (accumulate code acc x) =
  if MoneyRange (acc + x) then Done (acc + x) else Invalid code.
Proof.
  intros Hm Ha Hx. destruct (MoneyRange_add64 acc x Hm Ha Hx) as [Heq Hexact].
  unfold accumulate, add_amount, bind; simpl. rewrite Heq.
  destruct (MoneyRange (acc + x)); simpl; [|reflexivity].
  rewrite Hexact by reflexivity. reflexivity.
Qed.

Lemma accumulate_Done code acc x r :
  MAX_MONEY_is_amount -> in_money_range acc -> in_money_range x ->
  result (accumulate code acc x) = Done r ->
  r = acc + x /\ in_money_range r.
Proof.
  intros Hm Ha Hx. rewrite accumulate_result by assumption.
  destruct (MoneyRange (acc + x)) eqn:E; [|discriminate].
  intros [= <-]. split; [reflexivity | apply MoneyRange_spec, E].
Qed.

Lemma accumulate_trace code acc x :
  amounts_fit -> in_money_range acc -> in_money_range x ->
  Forall safe_event (trace (accumulate code acc x)).
Proof.
  intros Hfit Ha Hx. unfold accumulate, add_amount, bind; simpl.
  assert (safe_event (EvAdd acc x)).
  { simpl. auto using in_money_range_add. }
  destruct (negb _); simpl; (constructor; [assumption | constructor]).
Qed.

(** *** Transparent outputs (4.2) *)

Lemma vout_body_accumulate nValueOut txout :
  vout_body nValueOut txout =
  if nValue txout <? 0 then reject "bad-txns-vout-negative"
  else if nValue txout >? MAX_MONEY then reject "bad-txns-vout-toolarge"
  else accumulate "bad-txns-txouttotal-toolarge" nValueOut (nValue txout).
Proof. reflexivity. Qed.

Lemma vout_body_Done nValueOut txout r :
  MAX_MONEY_is_amount -> in_money_range nValueOut ->
  result (vout_body nValueOut txout) = Done r ->
  in_money_range (nValue txout) /\ r = nValueOut + nValue txout /\ in_money_range r.
Proof.
  intros Hfit Hs. rewrite vout_body_accumulate.
  destruct (nValue txout <? 0) eqn:E1; [discriminate|].
  destruct (nValue txout >? MAX_MONEY) eqn:E2; [discriminate|].
  assert (Hx : in_money_range (nValue txout)) by (unfold in_money_range; lia).
  intros H. apply accumulate_Done in H; [|assumption..]. tauto.
Qed.

Lemma vout_body_trace nValueOut txout :
  amounts_fit -> in_money_range nValueOut ->
  Forall safe_event (trace (vout_body nValueOut txout)).
Proof.
  intros Hfit Hs. rewrite vout_body_accumulate.
  destruct (nValue txout <? 0) eqn:E1; [constructor|].
  destruct (nValue txout >? MAX_MONEY) eqn:E2; [constructor|].
  apply accumulate_trace; auto. unfold in_money_range; lia.
Qed.

Lemma vout_loop_Done l : forall nValueOut r,
  MAX_MONEY_is_amount -> in_money_range nValueOut ->
  result (for_each vout_body nValueOut l) = Done r ->
  Forall (fun txout => in_money_range (nValue txout)) l /\
  r = nValueOut + sum_amounts nValue l /\ in_money_range r.
Proof.
  induction l as [|txout l IH]; intros s r Hfit Hs; simpl.
  - intros [= <-]. split; [constructor|]. split; [lia | exact Hs].
  - intros H. apply bind_Done in H as (s1 & H1 & H2).
    apply vout_body_Done in H1 as (Hx & -> & Hs1); auto.
    apply IH in H2 as (Hall & -> & Hr); auto.
    split; [constructor; assumption|]. split; [lia | exact Hr].
Qed.

(** *** Pool balance delta (4.3) *)

Lemma check_valueBalance_Done tx nValueOut r :
  MAX_MONEY_is_amount -> in_money_range nValueOut ->
  result (check_valueBalance tx nValueOut) = Done r ->
  - MAX_MONEY <= valueBalance tx <= MAX_MONEY /\
  r = nValueOut + (if valueBalance tx <=? 0 then - valueBalance tx else 0) /\
  in_money_range r.
Proof.
  intros Hfit Hs. unfold check_valueBalance.
  destruct (_ && negb (valueBalance tx =? 0)); [discriminate|].
  destruct (_ || _) eqn:E; [discriminate|].
  assert (Hvb : - MAX_MONEY <= valueBalance tx <= MAX_MONEY) by lia.
  destruct (valueBalance tx <=? 0) eqn:E0.
  - unfold neg_amount at 1. unfold bind at 1; simpl.
    rewrite neg64_exact by (apply in_money_range_neg; assumption).
    intros H. apply (accumulate_Done "bad-txns-txouttotal-toolarge") in H;
      [tauto | assumption.. | unfold in_money_range; lia].
  - simpl. intros [= <-]. split; [exact Hvb|]. split; [lia | exact Hs].
Qed.

Lemma check_valueBalance_trace tx nValueOut :
  amounts_fit -> in_money_range nValueOut ->
  Forall safe_event (trace (check_valueBalance tx nValueOut)).
Proof.
  intros Hfit Hs. pose proof (amounts_fit_is_amount Hfit) as Hm.
  unfold check_valueBalance.
  destruct (_ && negb (valueBalance tx =? 0)); [constructor|].
  destruct (_ || _) eqn:E; [constructor|].
  assert (Hvb : - MAX_MONEY <= valueBalance tx <= MAX_MONEY) by lia.
  destruct (valueBalance tx <=? 0) eqn:E0; [|constructor].
  apply Forall_trace_bind.
  - constructor; [|constructor]. simpl.
    split; [lia | apply in_money_range_neg; assumption].
  - intros negated [= <-].
    rewrite neg64_exact by (apply in_money_range_neg; assumption).
    apply (accumulate_trace "bad-txns-txouttotal-toolarge"); auto.
    unfold in_money_range. lia.
Qed.

End Accounting.

Section JoinSplitAccounting.
Context {ext : Externals}.


Lemma joinsplit_body_accumulate nValueOut js :
  joinsplit_body nValueOut js =
  if vpub_old js <? 0 then reject "bad-txns-vpub_old-negative"
  else if vpub_new js <? 0 then reject "bad-txns-vpub_new-negative"
  else if vpub_old js >? MAX_MONEY then reject "bad-txns-vpub_old-toolarge"
  else if vpub_new js >? MAX_MONEY then reject "bad-txns-vpub_new-toolarge"
  else if negb (vpub_new js =? 0) && negb (vpub_old js =? 0)
  then reject "bad-txns-vpubs-both-nonzero"
  else accumulate "bad-txns-txouttotal-toolarge" nValueOut (vpub_old js).
Proof. reflexivity. Qed.

(** The per-amount checks need no assumption on the running total. *)
Lemma joinsplit_body_amounts nValueOut js r :
  result (joinsplit_body nValueOut js) = Done r ->
  joinsplit_amounts_ok js /\ (vpub_old js = 0 \/ vpub_new js = 0).
Proof.
  rewrite joinsplit_body_accumulate. unfold joinsplit_amounts_ok, in_money_range.
  destruct (vpub_old js <? 0) eqn:E1; [discriminate|].
  destruct (vpub_new js <? 0) eqn:E2; [discriminate|].
  destruct (vpub_old js >? MAX_MONEY) eqn:E3; [discriminate|].
  destruct (vpub_new js >? MAX_MONEY) eqn:E4; [discriminate|].
  destruct (negb (vpub_new js =? 0) && negb (vpub_old js =? 0)) eqn:E5;
    [discriminate|].
  intros _. lia.
Qed.

Lemma joinsplit_loop_amounts l : forall nValueOut r,
  result (for_each joinsplit_body nValueOut l) = Done r ->
  Forall joinsplit_amounts_ok l.
Proof.
  induction l as [|js l IH]; intros s r; simpl; [constructor|].
  intros H. apply bind_Done in H as (s1 & H1 & H2).
  constructor; [exact (proj1 (joinsplit_body_amounts _ _ _ H1)) | eauto].
Qed.

Lemma joinsplit_body_Done nValueOut js r :
  MAX_MONEY_is_amount -> in_money_range nValueOut ->
  result (joinsplit_body nValueOut js) = Done r ->
  r = nValueOut + vpub_old js /\ in_money_range r.
Proof.
  intros Hfit Hs H.
  destruct (joinsplit_body_amounts _ _ _ H) as [[Hold Hnew] _].
  revert H. rewrite joinsplit_body_accumulate.
  repeat match goal with
         | |- context [if ?b then reject _ else _] =>
             destruct b; [discriminate|]
         end.
  intros H. apply accumulate_Done in H; assumption.
Qed.

Lemma joinsplit_body_trace nValueOut js :
  amounts_fit -> in_money_range nValueOut ->
  Forall safe_event (trace (joinsplit_body nValueOut js)).
Proof.
  intros Hfit Hs. rewrite joinsplit_body_accumulate.
  destruct (vpub_old js <? 0) eqn:E1; [constructor|].
  destruct (vpub_new js <? 0) eqn:E2; [constructor|].
  destruct (vpub_old js >? MAX_MONEY) eqn:E3; [constructor|].
  destruct (vpub_new js >? MAX_MONEY) eqn:E4; [constructor|].
  destruct (negb (vpub_new js =? 0) && negb (vpub_old js =? 0));
    [constructor|].
  apply accumulate_trace; auto. unfold in_money_range; lia.
Qed.

Lemma joinsplit_loop_Done l : forall nValueOut r,
  MAX_MONEY_is_amount -> in_money_range nValueOut ->
  result (for_each joinsplit_body nValueOut l) = Done r ->
  r = nValueOut + sum_amounts vpub_old l /\ in_money_range r.
Proof.
  induction l as [|js l IH]; intros s r Hfit Hs; simpl.
  - intros [= <-]. split; [lia | exact Hs].
  - intros H. apply bind_Done in H as (s1 & H1 & H2).
    apply joinsplit_body_Done in H1 as (-> & Hs1); auto.
    apply IH in H2 as (-> & Hr); auto.
    split; [lia | exact Hr].
Qed.

(** *** The second traversal: claimed inflow *)

Lemma valuein_body_eq nValueIn it :
  in_money_range (vpub_new it) ->
  valuein_body nValueIn it =
  accumulate "bad-txns-txintotal-toolarge" nValueIn (vpub_new it).
Proof.
  intros H. apply MoneyRange_spec in H.
  unfold valuein_body, accumulate. rewrite H. reflexivity.
Qed.

(** A step of the second traversal that passes has checked the amount
    itself, whatever the first traversal did. *)
Lemma valuein_body_Done nValueIn it r :
  MAX_MONEY_is_amount -> in_money_range nValueIn ->
  result (valuein_body nValueIn it) = Done r ->
  in_money_range (vpub_new it) /\ r = nValueIn + vpub_new it /\ in_money_range r.
Proof.
  intros Hfit Hs H.
  assert (Hx : in_money_range (vpub_new it)).
  { apply MoneyRange_spec. revert H. unfold valuein_body, add_amount, bind; simpl.
    destruct (MoneyRange (vpub_new it)); [reflexivity | discriminate]. }
  split; [exact Hx|]. rewrite valuein_body_eq in H by exact Hx.
  apply accumulate_Done in H; assumption.
Qed.

Lemma valuein_loop_Done l : forall nValueIn r,
  MAX_MONEY_is_amount -> in_money_range nValueIn ->
  result (for_each valuein_body nValueIn l) = Done r ->
  r = nValueIn + sum_amounts vpub_new l /\ in_money_range r.
Proof.
  induction l as [|js l IH]; intros s r Hfit Hs; simpl.
  - intros [= <-]. split; [lia | exact Hs].
  - intros H. apply bind_Done in H as (s1 & H1 & H2).
    apply valuein_body_Done in H1 as (_ & -> & Hs1); auto.
    apply IH in H2 as (-> & Hr); auto.
    split; [lia | exact Hr].
Qed.

Lemma check_valueIn_sapling_accumulate tx nValueIn :
  check_valueIn_sapling tx nValueIn =
  if valueBalance tx >=? 0
  then accumulate "bad-txns-txintotal-toolarge" nValueIn (valueBalance tx)
  else ret nValueIn.
Proof. reflexivity. Qed.

Lemma check_valueIn_sapling_Done tx nValueIn r :
  MAX_MONEY_is_amount -> in_money_range nValueIn ->
  - MAX_MONEY <= valueBalance tx <= MAX_MONEY ->
  result (check_valueIn_sapling tx nValueIn) = Done r ->
  r = nValueIn + (if valueBalance tx >=? 0 then valueBalance tx else 0) /\
  in_money_range r.
Proof.
  intros Hfit Hs Hvb. rewrite check_valueIn_sapling_accumulate.
  destruct (valueBalance tx >=? 0) eqn:E.
  - intros H. apply accumulate_Done in H; [assumption..|].
    unfold in_money_range. lia.
  - simpl. intros [= <-]. split; [lia | exact Hs].
Qed.

Lemma check_valueIn_sapling_trace tx nValueIn :
  amounts_fit -> in_money_range nValueIn ->
  - MAX_MONEY <= valueBalance tx <= MAX_MONEY ->
  Forall safe_event (trace (check_valueIn_sapling tx nValueIn)).
Proof.
  intros Hfit Hs Hvb. rewrite check_valueIn_sapling_accumulate.
  destruct (valueBalance tx >=? 0) eqn:E; [|constructor].
  apply accumulate_trace; auto. unfold in_money_range. lia.
Qed.

End JoinSplitAccounting.

(** ** Loops that record nothing *)

Lemma for_each_ext {A S} (body1 body2 : S -> A -> Check S) (l : list A) :
  (forall s a, a ∈ l -> body1 s a = body2 s a) ->
  forall s, for_each body1 s l = for_each body2 s l.
Proof.
  induction l as [|a l IH]; intros Hext s; simpl; [reflexivity|].
  rewrite (Hext s a) by left. unfold bind.
  destruct (result (body2 s a)); try reflexivity.
  rewrite IH; [reflexivity|]. intros s' a' Hin. apply Hext. right. exact Hin.
Qed.

Lemma for_each_silent {A S} (body : S -> A -> Check S) (l : list A) :
  (forall s a, trace (body s a) = []) ->
  forall s, trace (for_each body s l) = [].
Proof.
  intros Hbody. induction l as [|a l IH]; intros s; simpl; [reflexivity|].
  rewrite trace_bind, Hbody. destruct (result (body s a)); simpl; auto.
Qed.

Lemma dup_body_trace `{Countable K} (reason : string) (seen : gset K) (k : K) :
  trace (dup_body reason seen k) = [].
Proof. unfold dup_body, set_insert. destruct (negb _); reflexivity. Qed.

Section SilentPasses.
Context {ext : Externals}.

Lemma check_basic_trace tx : trace (check_basic tx) = [].
Proof.
  unfold check_basic.
  repeat match goal with |- context [if ?b then _ else _] => destruct b end;
    reflexivity.
Qed.

Lemma check_duplicate_inputs_trace tx : trace (check_duplicate_inputs tx) = [].
Proof. apply for_each_silent. intros. apply dup_body_trace. Qed.

Lemma check_duplicate_sprout_trace tx : trace (check_duplicate_sprout tx) = [].
Proof.
  apply for_each_silent. intros. apply for_each_silent.
  intros. apply dup_body_trace.
Qed.

Lemma check_duplicate_sapling_trace tx : trace (check_duplicate_sapling tx) = [].
Proof. apply for_each_silent. intros. apply dup_body_trace. Qed.

Lemma check_not_coinbase_trace tx : trace (check_not_coinbase tx) = [].
Proof.
  unfold check_not_coinbase. rewrite trace_bind.
  rewrite for_each_silent by (intros; destruct (COutPoint_IsNull _); reflexivity).
  destruct (result _); try reflexivity.
  apply for_each_silent. intros; destruct (uint256_IsNull _); reflexivity.
Qed.

(** The coinbase branch records its accesses to [tx.vin[0]] and nothing
    else. *)
Lemma check_coinbase_trace tx :
  Forall (fun e => e = EvIndex 0 (length (vin tx))) (trace (check_coinbase tx)).
Proof.
  unfold check_coinbase. apply Forall_trace_bind.
  - repeat constructor.
  - intros in0 _. destruct (_ <? 2)%nat; [constructor|].
    apply Forall_trace_bind; [repeat constructor|].
    intros in1 _.
    repeat match goal with |- context [if ?b then _ else _] => destruct b end;
      constructor.
Qed.

Lemma check_coinbase_rules_trace tx :
  Forall (fun e => e = EvIndex 0 (length (vin tx)))
         (trace (check_coinbase_rules tx)).
Proof.
  unfold check_coinbase_rules. destruct (IsCoinBase tx).
  - apply check_coinbase_trace.
  - rewrite check_not_coinbase_trace. constructor.
Qed.

End SilentPasses.

(** ** C1 and C3: the accounted totals and the additions that build them *)

Section AmountTheorems.
Context {ext : Externals}.

(** C1. On every transaction the checker accepts, each transparent output
    amount is in [[0, MAX_MONEY]], and so are the output-side total (the
    outputs, the negated balance delta when it is not positive, and every
    [vpub_old]) and the input-side total (every [vpub_new], and the
    balance delta when it is not negative). *)
Theorem valid_transaction_totals_in_range (tx : CTransaction) :
  MAX_MONEY_is_amount ->
  result (CheckTransaction tx) = Valid ->
  Forall (fun txout => in_money_range (nValue txout)) (vout tx) /\
  in_money_range (out_total tx) /\
  in_money_range (in_total tx).
Proof.
  intros Hfit H. unfold CheckTransaction in H.
  assert (H0 : in_money_range 0) by (unfold in_money_range; destruct Hfit; lia).
  apply bind_Done in H as (_ & _ & H).
  apply bind_Done in H as (v1 & H1 & H).
  apply bind_Done in H as (v2 & H2 & H).
  apply bind_Done in H as (v3 & H3 & H).
  apply bind_Done in H as (i1 & H4 & H).
  apply bind_Done in H as (i2 & H5 & _).
  apply vout_loop_Done in H1 as (Hvout & Hv1 & Hr1); [|assumption..].
  apply check_valueBalance_Done in H2 as (Hvb & Hv2 & Hr2); [|assumption..].
  apply joinsplit_loop_Done in H3 as (Hv3 & Hr3); [|assumption..].
  apply valuein_loop_Done in H4 as (Hi1 & Hr4); [|assumption..].
  apply check_valueIn_sapling_Done in H5 as (Hi2 & Hr5); [|assumption..].
  split; [exact Hvout|]. unfold out_total, in_total. split.
  - replace (_ + _ + _) with v3 by lia. exact Hr3.
  - replace (_ + _) with i2 by lia. exact Hr5.
Qed.

(** C3. Every addition the checker performs on a running total has both
    operands in [[0, MAX_MONEY]] and every negation has its operand in
    [[-MAX_MONEY, MAX_MONEY]], at the time the operation runs; hence no
    operation leaves the signed 64-bit range, and each partial sum has
    passed its range check before it is an operand again. *)
Theorem checker_arithmetic_never_overflows (tx : CTransaction) :
  amounts_fit ->
  Forall safe_event (trace (CheckTransaction tx)).
Proof.
  intros Hfit. pose proof (amounts_fit_is_amount Hfit) as Hm.
  unfold CheckTransaction.
  assert (H0 : in_money_range 0) by (unfold in_money_range; destruct Hfit; lia).
  assert (Hsilent : forall l : list Event, l = [] -> Forall safe_event l)
    by (intros l ->; constructor).
  apply Forall_trace_bind; [apply Hsilent, check_basic_trace|]. intros _ _.
  destruct (for_each_inv in_money_range safe_event vout_body (vout tx))
    with (s := 0) as [Ht1 Hr1]; [|exact H0|].
  { intros s a _ Hs. split; [apply vout_body_trace; assumption|].
    intros s' Hd. apply vout_body_Done in Hd; tauto. }
  apply Forall_trace_bind; [exact Ht1|]. intros v1 H1. apply Hr1 in H1.
  apply Forall_trace_bind; [apply check_valueBalance_trace; assumption|].
  intros v2 H2. apply check_valueBalance_Done in H2 as (Hvb & _ & Hr2);
    [|assumption..].
  destruct (for_each_inv in_money_range safe_event joinsplit_body (vJoinSplit tx))
    with (s := v2) as [Ht3 Hr3]; [|exact Hr2|].
  { intros s a _ Hs. split; [apply joinsplit_body_trace; assumption|].
    intros s' Hd. apply joinsplit_body_Done in Hd; tauto. }
  apply Forall_trace_bind; [exact Ht3|]. intros v3 H3.
  pose proof (joinsplit_loop_amounts _ _ _ H3) as Hjs.
  destruct (for_each_inv in_money_range safe_event valuein_body (vJoinSplit tx))
    with (s := 0) as [Ht4 Hr4]; [|exact H0|].
  { intros s a Hin Hs.
    assert (Hnew : in_money_range (vpub_new a)).
    { rewrite Forall_forall in Hjs. apply Hjs, Hin. }
    split.
    - rewrite valuein_body_eq by exact Hnew. apply accumulate_trace; assumption.
    - intros s' Hd. apply valuein_body_Done in Hd; tauto. }
  apply Forall_trace_bind; [exact Ht4|]. intros i1 H4. apply Hr4 in H4.
  apply Forall_trace_bind; [apply check_valueIn_sapling_trace; assumption|].
  intros i2 _.
  apply Forall_trace_bind; [apply Hsilent, check_duplicate_inputs_trace|].
  intros _ _.
  apply Forall_trace_bind; [apply Hsilent, check_duplicate_sprout_trace|].
  intros _ _.
  apply Forall_trace_bind; [apply Hsilent, check_duplicate_sapling_trace|].
  intros _ _.
  eapply Forall_impl; [apply check_coinbase_rules_trace|].
  intros e ->. exact I.
Qed.

End AmountTheorems.

(** ** C10 and C4: the second traversal and the zero balance delta *)

Section InputSide.
Context {ext : Externals}.

(** When does the second traversal reject: at the first prefix whose sum
    is out of range. *)
Lemma valuein_loop_Invalid l : forall nValueIn,
  MAX_MONEY_is_amount -> in_money_range nValueIn ->
  Forall joinsplit_amounts_ok l ->
  result (for_each valuein_body nValueIn l) = Invalid "bad-txns-txintotal-toolarge"
  <-> exists k, (k <= length l)%nat /\
        ~ in_money_range (nValueIn + sum_amounts vpub_new (take k l)).
Proof.
  induction l as [|it l IH]; intros s Hm Hs Hall; simpl.
  - split; [discriminate|]. intros (k & Hk & Hbad). exfalso. apply Hbad.
    rewrite take_nil. simpl. rewrite Z.add_0_r. exact Hs.
  - apply Forall_cons in Hall as [[_ Hnew] Hall].
    rewrite valuein_body_eq by exact Hnew.
    rewrite result_bind, accumulate_result by assumption.
    destruct (MoneyRange (s + vpub_new it)) eqn:E.
    + apply MoneyRange_spec in E. rewrite (IH _ Hm E Hall). split.
      * intros (k & Hk & Hbad). exists (S k). split; [lia|].
        simpl. rewrite Z.add_assoc. exact Hbad.
      * intros (k & Hk & Hbad). destruct k as [|k].
        { exfalso. apply Hbad. simpl. rewrite Z.add_0_r. exact Hs. }
        exists k. split; [lia|]. simpl in Hbad.
        rewrite Z.add_assoc in Hbad. exact Hbad.
    + apply MoneyRange_false in E. split; [|reflexivity]. intros _.
      exists 1%nat. split; [lia|]. simpl. rewrite ?take_0. simpl.
      rewrite Z.add_0_r. exact E.
Qed.

(** C10. Once the first traversal over the join-split descriptions has
    passed, the test of [vpub_new] alone in the second traversal is true
    for every description, the second traversal is the same computation
    without that test, and it rejects exactly when some running input-side
    total leaves [[0, MAX_MONEY]]. *)
Theorem second_traversal_amount_test_redundant
        (tx : CTransaction) (nValueOut r : CAmount) :
  MAX_MONEY_is_amount ->
  result (for_each joinsplit_body nValueOut (vJoinSplit tx)) = Done r ->
  Forall (fun it => MoneyRange (vpub_new it) = true) (vJoinSplit tx) /\
  (forall nValueIn,
     for_each valuein_body nValueIn (vJoinSplit tx) =
     for_each valuein_body_total_only nValueIn (vJoinSplit tx)) /\
  (result (for_each valuein_body 0 (vJoinSplit tx))
     = Invalid "bad-txns-txintotal-toolarge"
   <-> exists k, (k <= length (vJoinSplit tx))%nat /\
         ~ in_money_range (sum_amounts vpub_new (take k (vJoinSplit tx)))).
Proof.
  intros Hfit H. pose proof (joinsplit_loop_amounts _ _ _ H) as Hall.
  split; [|split].
  - eapply Forall_impl; [exact Hall|]. intros it [_ Hnew].
    apply MoneyRange_spec, Hnew.
  - intros s. apply for_each_ext. intros s' it Hin.
    rewrite Forall_forall in Hall. destruct (Hall it Hin) as [_ Hnew].
    rewrite valuein_body_eq by exact Hnew. reflexivity.
  - rewrite valuein_loop_Invalid; [reflexivity | exact Hfit | | exact Hall].
    unfold in_money_range, MAX_MONEY_is_amount in *. lia.
Qed.

(** The value a passing second traversal leaves in [nValueIn] has either
    never been touched or has just passed its range check. *)
Lemma valuein_loop_checked l : forall nValueIn r,
  result (for_each valuein_body nValueIn l) = Done r ->
  (l = [] /\ r = nValueIn) \/ (MoneyRange r = true /\ in_int64 r).
Proof.
  induction l as [|it l IH]; intros s r; simpl.
  - intros [= <-]. left. split; reflexivity.
  - intros H. apply bind_Done in H as (s1 & H1 & H2). right.
    assert (Hs1 : MoneyRange s1 = true /\ in_int64 s1).
    { revert H1. unfold valuein_body, add_amount, bind; simpl.
      destruct (MoneyRange (vpub_new it)); simpl; [|discriminate].
      destruct (MoneyRange (add64 s (vpub_new it))) eqn:E; simpl; [|discriminate].
      intros [= <-]. split; [exact E | apply wrap64_range]. }
    apply IH in H2 as [[_ ->] | H2]; assumption.
Qed.

Lemma check_valueBalance_checked tx nValueOut r :
  valueBalance tx <= 0 ->
  result (check_valueBalance tx nValueOut) = Done r ->
  MoneyRange r = true.
Proof.
  intros Hle. unfold check_valueBalance.
  destruct (_ && negb (valueBalance tx =? 0)); [discriminate|].
  destruct (_ || _); [discriminate|].
  destruct (valueBalance tx <=? 0) eqn:E; [|lia].
  unfold neg_amount, add_amount, bind; simpl.
  destruct (MoneyRange (add64 nValueOut (neg64 (valueBalance tx)))) eqn:E1;
    simpl; [|discriminate].
  intros [= <-]. exact E1.
Qed.

Lemma check_valueIn_sapling_zero tx nValueIn :
  valueBalance tx = 0 ->
  MoneyRange nValueIn = true -> in_int64 nValueIn ->
  result (check_valueIn_sapling tx nValueIn) = Done nValueIn.
Proof.
  intros Hvb Hr Hi. unfold check_valueIn_sapling, add_amount, bind. rewrite Hvb.
  simpl. unfold add64. rewrite Z.add_0_r, wrap64_in_range by exact Hi.
  rewrite Hr. reflexivity.
Qed.

(** C4. On a transaction whose balance delta is zero, the checker and the
    variant that adds the delta to the input side only when it is strictly
    positive return the same verdict, with the same reason. *)
Theorem zero_delta_same_verdict_as_spec_variant (tx : CTransaction) :
  valueBalance tx = 0 ->
  result (CheckTransaction tx) = result (CheckTransaction_spec tx).
Proof.
  intros Hvb. unfold CheckTransaction, CheckTransaction_spec.
  rewrite !(result_bind (check_basic tx)).
  destruct (result (check_basic tx)); try reflexivity.
  rewrite !(result_bind (for_each vout_body 0 (vout tx))).
  destruct (result (for_each vout_body 0 (vout tx))) as [v1| |]; try reflexivity.
  rewrite !(result_bind (check_valueBalance tx v1)).
  destruct (result (check_valueBalance tx v1)) as [v2| |] eqn:E2; try reflexivity.
  apply check_valueBalance_checked in E2; [|lia].
  rewrite !(result_bind (for_each joinsplit_body v2 (vJoinSplit tx))).
  destruct (result (for_each joinsplit_body v2 (vJoinSplit tx))) as [v3| |];
    try reflexivity.
  rewrite !(result_bind (for_each valuein_body 0 (vJoinSplit tx))).
  destruct (result (for_each valuein_body 0 (vJoinSplit tx))) as [i1| |] eqn:E4;
    try reflexivity.
  assert (Hi1 : MoneyRange i1 = true /\ in_int64 i1).
  { apply valuein_loop_checked in E4 as [[_ ->] | E4]; [|exact E4]. split.
    - apply MoneyRange_spec in E2. apply MoneyRange_spec.
      unfold in_money_range in *. lia.
    - unfold in_int64, INT64_MIN, INT64_MAX. lia. }
  destruct Hi1 as [Hr Hi].
  rewrite (result_bind (check_valueIn_sapling tx i1)).
  rewrite (result_bind (check_valueIn_sapling_spec tx i1)).
  rewrite (check_valueIn_sapling_zero tx i1 Hvb Hr Hi).
  unfold check_valueIn_sapling_spec. rewrite Hvb. reflexivity.
Qed.

End InputSide.

(** ** The checker as a prefix followed by the rest *)

Lemma bind_ext {A B} (m : Check A) (f g : A -> Check B) :
  (forall a, result m = Done a -> f a = g a) -> bind m f = bind m g.
Proof.
  intros H. unfold bind. destruct (result m) as [a| |]; try reflexivity.
  rewrite (H a eq_refl). reflexivity.
Qed.

Lemma bind_ret_l {A B} (a : A) (f : A -> Check B) : bind (ret a) f = f a.
Proof. unfold bind; simpl. destruct (f a); reflexivity. Qed.

Section Stages.
Context {ext : Externals}.

Lemma CheckTransaction_from_4_3 tx :
  CheckTransaction tx = bind (passes_4_1_to_4_2 tx) (from_4_3 tx).
Proof. unfold passes_4_1_to_4_2. rewrite bind_assoc. reflexivity. Qed.

Lemma CheckTransaction_from_4_4 tx :
  CheckTransaction tx = bind (passes_4_1_to_4_3 tx) (from_4_4 tx).
Proof.
  unfold passes_4_1_to_4_3. rewrite bind_assoc. apply CheckTransaction_from_4_3.
Qed.

Lemma pass_4_4_then tx nValueOut :
  bind (pass_4_4 tx nValueOut) (fun _ => from_4_5 tx) = from_4_4 tx nValueOut.
Proof.
  unfold pass_4_4, from_4_4. rewrite bind_assoc. apply bind_ext. intros v3 _.
  rewrite bind_assoc. apply bind_ext. intros i1 _.
  rewrite bind_assoc. apply bind_ext. intros i2 _.
  exact (bind_ret_l _ (fun _ => from_4_5 tx)).
Qed.

Lemma CheckTransaction_from_4_5 tx :
  CheckTransaction tx = bind (passes_4_1_to_4_4 tx) (fun _ => from_4_5 tx).
Proof.
  unfold passes_4_1_to_4_4. rewrite bind_assoc, CheckTransaction_from_4_4.
  apply bind_ext. intros v _. symmetry. apply pass_4_4_then.
Qed.

Lemma pass_4_5_then tx :
  bind (pass_4_5 tx) (fun _ => check_coinbase_rules tx) = from_4_5 tx.
Proof.
  unfold pass_4_5, from_4_5. rewrite bind_assoc. apply bind_ext. intros _ _.
  rewrite bind_assoc. apply bind_ext. intros _ _.
  rewrite bind_assoc. apply bind_ext. intros _ _.
  exact (bind_ret_l _ (fun _ => check_coinbase_rules tx)).
Qed.

Lemma CheckTransaction_from_4_6 tx :
  CheckTransaction tx =
  bind (passes_4_1_to_4_5 tx) (fun _ => check_coinbase_rules tx).
Proof.
  unfold passes_4_1_to_4_5. rewrite bind_assoc, CheckTransaction_from_4_5.
  apply bind_ext. intros v _. symmetry. apply pass_4_5_then.
Qed.

End Stages.

(** ** Loops over mapped and nested sequences *)

Lemma for_each_app {A S} (body : S -> A -> Check S) (l1 l2 : list A) :
  forall s, for_each body s (l1 ++ l2) =
            bind (for_each body s l1) (fun s' => for_each body s' l2).
Proof.
  induction l1 as [|a l1 IH]; intros s; simpl.
  - symmetry. exact (bind_ret_l s (fun s' => for_each body s' l2)).
  - rewrite bind_assoc. apply bind_ext. intros s' _. apply IH.
Qed.

Lemma for_each_map {A B S} (f : A -> B) (body : S -> B -> Check S) (l : list A) :
  forall s, for_each (fun s a => body s (f a)) s l = for_each body s (map f l).
Proof.
  induction l as [|a l IH]; intros s; simpl; [reflexivity|].
  apply bind_ext. intros s' _. apply IH.
Qed.

Lemma for_each_concat {A B S} (g : A -> list B) (body : S -> B -> Check S)
      (l : list A) :
  forall s, for_each (fun s a => for_each body s (g a)) s l =
            for_each body s (concat (map g l)).
Proof.
  induction l as [|a l IH]; intros s; simpl; [reflexivity|].
  rewrite for_each_app. apply bind_ext. intros s' _. apply IH.
Qed.

(** ** The set-insertion discipline of pass 4.5 *)

Section Duplicates.
Context {K : Type} {K_eq_dec : EqDecision K} {K_countable : Countable K}.
Variable reason : string.

Lemma dup_body_result (seen : gset K) (k : K) :
  result (dup_body reason seen k) =
  if decide (k ∈ seen) then Invalid reason else Done ({[ k ]} ∪ seen).
Proof.
  unfold dup_body, set_insert. destruct (decide (k ∈ seen)) as [Hin|Hnin].
  - rewrite bool_decide_eq_false_2 by (intros Hn; exact (Hn Hin)). reflexivity.
  - rewrite bool_decide_eq_true_2 by exact Hnin. reflexivity.
Qed.

(** A loop of insertions passes when the keys are pairwise distinct and
    none is in the set already. *)
Lemma dup_loop_Done (l : list K) : forall seen : gset K,
  NoDup l -> (forall k, k ∈ l -> k ∉ seen) ->
  result (for_each (dup_body reason) seen l) = Done (list_to_set l ∪ seen).
Proof.
  induction l as [|k l IH]; intros seen Hnd Hfresh; simpl.
  - rewrite (left_id_L ∅ (∪)). reflexivity.
  - apply NoDup_cons in Hnd as [Hk Hnd].
    rewrite result_bind, dup_body_result.
    destruct (decide (k ∈ seen)) as [Hin|_].
    { exfalso. apply (Hfresh k); [left | exact Hin]. }
    rewrite IH; [| exact Hnd |].
    + rewrite (comm_L (∪) {[ k ]} (list_to_set l)), (assoc_L (∪)). reflexivity.
    + intros k' Hk' [Hin | Hin]%elem_of_union.
      * apply elem_of_singleton in Hin as ->. exact (Hk Hk').
      * apply (Hfresh k'); [right; exact Hk' | exact Hin].
Qed.

(** It rejects, with its own reason code, in every other case. *)
Lemma dup_loop_Invalid (l : list K) : forall seen : gset K,
  ~ (NoDup l /\ forall k, k ∈ l -> k ∉ seen) ->
  result (for_each (dup_body reason) seen l) = Invalid reason.
Proof.
  induction l as [|k l IH]; intros seen Hbad; simpl.
  - exfalso. apply Hbad. split; [constructor | set_solver].
  - rewrite result_bind, dup_body_result.
    destruct (decide (k ∈ seen)) as [Hin|Hnin]; [reflexivity|].
    apply IH. intros [Hnd Hfresh]. apply Hbad. split.
    + apply NoDup_cons. split; [|exact Hnd].
      intros Hk. apply (Hfresh k Hk). set_solver.
    + intros k' Hk'. apply elem_of_cons in Hk' as [->|Hk']; [exact Hnin|].
      specialize (Hfresh k' Hk'). set_solver.
Qed.

Lemma dup_loop_rejects (l : list K) (seen : gset K) (r : string) :
  result (for_each (dup_body reason) seen l) = Invalid r -> r = reason.
Proof.
  revert seen. induction l as [|k l IH]; intros seen; simpl; [discriminate|].
  rewrite result_bind, dup_body_result.
  destruct (decide (k ∈ seen)); [congruence | apply IH].
Qed.

Lemma dup_loop_defined (l : list K) (seen : gset K) :
  result (for_each (dup_body reason) seen l) <> Undefined.
Proof.
  revert seen. induction l as [|k l IH]; intros seen; simpl; [discriminate|].
  rewrite result_bind, dup_body_result.
  destruct (decide (k ∈ seen)); [discriminate | apply IH].
Qed.

End Duplicates.

Lemma occurs_twice_not_NoDup {A} (l : list A) : occurs_twice l -> ~ NoDup l.
Proof.
  intros (i & j & x & Hij & Hi & Hj) Hnd. apply Hij.
  exact (proj1 (NoDup_alt l) Hnd i j x Hi Hj).
Qed.

Section DuplicatePasses.
Context {ext : Externals}.

Lemma check_duplicate_inputs_eq tx :
  check_duplicate_inputs tx =
  for_each (dup_body "bad-txns-inputs-duplicate") ∅ (prevouts tx).
Proof. unfold check_duplicate_inputs, prevouts. apply for_each_map. Qed.

Lemma check_duplicate_sprout_eq tx :
  check_duplicate_sprout tx =
  for_each (dup_body "bad-joinsplits-nullifiers-duplicate") ∅ (sprout_nullifiers tx).
Proof.
  unfold check_duplicate_sprout, sprout_nullifiers.
  apply (for_each_concat (fun js => array2_elems (nullifiers js))).
Qed.

Lemma check_duplicate_sapling_eq tx :
  check_duplicate_sapling tx =
  for_each (dup_body "bad-spend-description-nullifiers-duplicate") ∅
           (sapling_nullifiers tx).
Proof. unfold check_duplicate_sapling, sapling_nullifiers. apply for_each_map. Qed.

End DuplicatePasses.

(** ** The reason codes each pass can return *)

Lemma ends_within_ret {A} codes (a : A) : ends_within codes (ret a).
Proof. exact I. Qed.

Lemma ends_within_reject {A} codes r : r ∈ codes -> ends_within codes (@reject A r).
Proof. intros H. exact H. Qed.

Lemma ends_within_bind {A B} codes (m : Check A) (f : A -> Check B) :
  ends_within codes m ->
  (forall a, result m = Done a -> ends_within codes (f a)) ->
  ends_within codes (bind m f).
Proof.
  unfold ends_within. rewrite result_bind. intros Hm Hf.
  destruct (result m) as [a| |]; [exact (Hf a eq_refl) | exact Hm | exact Hm].
Qed.

Lemma ends_within_for_each {A S} codes (body : S -> A -> Check S) (l : list A) :
  (forall s a, ends_within codes (body s a)) ->
  forall s, ends_within codes (for_each body s l).
Proof.
  intros Hbody. induction l as [|a l IH]; intros s; simpl.
  - apply ends_within_ret.
  - apply ends_within_bind; [apply Hbody | intros s' _; apply IH].
Qed.

Lemma ends_within_Invalid {A} codes (m : Check A) r :
  ends_within codes m -> result m = Invalid r -> r ∈ codes.
Proof. unfold ends_within. intros H E. rewrite E in H. exact H. Qed.

Lemma ends_within_defined {A} codes (m : Check A) :
  ends_within codes m -> result m <> Undefined.
Proof. unfold ends_within. intros H E. rewrite E in H. exact H. Qed.

Lemma other_codes_not_duplicate r : r ∈ other_codes -> r ∉ duplicate_codes.
Proof.
  intros Hin Hdup. apply list_elem_of_In in Hin, Hdup.
  simpl in Hdup. destruct Hdup as [<-|[<-|[<-|[]]]];
    simpl in Hin; repeat (destruct Hin as [Hin|Hin]; [discriminate|]);
    exact Hin.
Qed.

Ltac other_code := apply list_elem_of_In; simpl; tauto.

Ltac split_checks :=
  repeat match goal with
         | |- ends_within _ (if ?b then _ else _) => destruct b eqn:?
         | |- ends_within _ (reject _) => apply ends_within_reject; other_code
         | |- ends_within _ (ret _) => apply ends_within_ret
         end.

Section ReasonCodes.
Context {ext : Externals}.

Lemma accumulate_ends_within code acc x :
  code ∈ other_codes -> ends_within other_codes (accumulate code acc x).
Proof.
  intros Hc. unfold accumulate, add_amount, bind, ends_within; simpl.
  destruct (negb _); simpl; [exact Hc | exact I].
Qed.

Lemma check_basic_ends_within tx : ends_within other_codes (check_basic tx).
Proof. unfold check_basic. split_checks. Qed.

Lemma vout_body_ends_within s txout : ends_within other_codes (vout_body s txout).
Proof.
  rewrite vout_body_accumulate. split_checks.
  apply accumulate_ends_within. other_code.
Qed.

Lemma check_valueBalance_ends_within tx s :
  ends_within other_codes (check_valueBalance tx s).
Proof.
  unfold check_valueBalance. split_checks.
  apply ends_within_bind; [exact I|]. intros negated _.
  apply (accumulate_ends_within "bad-txns-txouttotal-toolarge"). other_code.
Qed.

Lemma joinsplit_body_ends_within s js :
  ends_within other_codes (joinsplit_body s js).
Proof.
  rewrite joinsplit_body_accumulate. split_checks.
  apply accumulate_ends_within. other_code.
Qed.

Lemma valuein_body_ends_within s it :
  ends_within other_codes (valuein_body s it).
Proof.
  unfold valuein_body. apply ends_within_bind; [exact I|]. intros s' _.
  split_checks.
Qed.

Lemma check_valueIn_sapling_ends_within tx s :
  ends_within other_codes (check_valueIn_sapling tx s).
Proof.
  rewrite check_valueIn_sapling_accumulate. split_checks.
  apply accumulate_ends_within. other_code.
Qed.

Lemma passes_4_1_to_4_4_ends_within tx :
  ends_within other_codes (passes_4_1_to_4_4 tx).
Proof.
  unfold passes_4_1_to_4_4, passes_4_1_to_4_3, passes_4_1_to_4_2, pass_4_4.
  repeat (apply ends_within_bind; [|intros ? _]);
    auto using check_basic_ends_within, check_valueBalance_ends_within,
               check_valueIn_sapling_ends_within, ends_within_ret.
  - apply ends_within_for_each, vout_body_ends_within.
  - apply ends_within_for_each, joinsplit_body_ends_within.
  - apply ends_within_for_each, valuein_body_ends_within.
Qed.

(** A coinbase transaction has a first input (by the definition of
    [IsCoinBase]). *)
Lemma IsCoinBase_first_input tx :
  IsCoinBase tx = true ->
  exists in0, vin tx !! 0%nat = Some in0 /\ COutPoint_IsNull (prevout in0) = true.
Proof.
  unfold IsCoinBase. destruct (vin tx) as [|in0 rest]; [discriminate|].
  intros H. exists in0. split; [reflexivity | exact H].
Qed.

(** The coinbase branch, once its accesses to [tx.vin[0]] are resolved. *)
Lemma check_coinbase_result tx in0 :
  vin tx !! 0%nat = Some in0 ->
  result (check_coinbase tx) =
  if (length (scriptSig in0) <? 2)%nat || (100 <? length (scriptSig in0))%nat
  then Invalid "bad-cb-length"
  else if (0 <? length (vShieldedSpend tx))%nat
       then Invalid "bad-cb-has-spend-description"
       else Valid.
Proof.
  intros Hin0. unfold check_coinbase, vin_at. rewrite !result_bind; simpl.
  rewrite Hin0. destruct (_ <? 2)%nat; simpl; [reflexivity|].
  rewrite ?result_bind; simpl; rewrite ?Hin0.
  destruct (100 <? _)%nat; simpl; [reflexivity|].
  destruct (0 <? _)%nat; reflexivity.
Qed.

Lemma check_coinbase_rules_ends_within tx :
  ends_within other_codes (check_coinbase_rules tx).
Proof.
  unfold check_coinbase_rules. destruct (IsCoinBase tx) eqn:Ecb.
  - apply IsCoinBase_first_input in Ecb as (in0 & Hin0 & _).
    unfold ends_within. rewrite (check_coinbase_result tx in0 Hin0).
    repeat match goal with |- context [if ?b then _ else _] => destruct b end;
      try exact I; other_code.
  - unfold check_not_coinbase. apply ends_within_bind; [|intros _ _].
    + apply ends_within_for_each. intros [] txin. split_checks.
    + apply ends_within_for_each. intros [] sd. split_checks.
Qed.

(** With pairwise distinct keys in each of the three spaces, pass 4.5
    passes. *)
Lemma from_4_5_distinct_keys tx :
  NoDup (prevouts tx) -> NoDup (sprout_nullifiers tx) ->
  NoDup (sapling_nullifiers tx) ->
  result (from_4_5 tx) = result (check_coinbase_rules tx).
Proof.
  intros H1 H2 H3. unfold from_4_5.
  rewrite result_bind, check_duplicate_inputs_eq, dup_loop_Done;
    [|exact H1 | set_solver].
  rewrite result_bind, check_duplicate_sprout_eq, dup_loop_Done;
    [|exact H2 | set_solver].
  rewrite result_bind, check_duplicate_sapling_eq, dup_loop_Done;
    [|exact H3 | set_solver].
  reflexivity.
Qed.

Lemma from_4_5_defined tx : result (from_4_5 tx) <> Undefined.
Proof.
  unfold from_4_5. rewrite result_bind, check_duplicate_inputs_eq.
  pose proof (dup_loop_defined "bad-txns-inputs-duplicate" (prevouts tx) ∅).
  destruct (result (for_each _ _ (prevouts tx))); [|discriminate|congruence].
  rewrite result_bind, check_duplicate_sprout_eq.
  pose proof (dup_loop_defined "bad-joinsplits-nullifiers-duplicate"
                               (sprout_nullifiers tx) ∅).
  destruct (result (for_each _ _ (sprout_nullifiers tx)));
    [|discriminate|congruence].
  rewrite result_bind, check_duplicate_sapling_eq.
  pose proof (dup_loop_defined "bad-spend-description-nullifiers-duplicate"
                               (sapling_nullifiers tx) ∅).
  destruct (result (for_each _ _ (sapling_nullifiers tx)));
    [|discriminate|congruence].
  apply (ends_within_defined other_codes), check_coinbase_rules_ends_within.
Qed.

End ReasonCodes.

(** ** C2, C6: duplicate references *)

Section DuplicateTheorems.
Context {ext : Externals}.

(** C2 (amended). On every transaction that passes the checks before pass
    4.5 (passes 4.1 to 4.4), if some previous-output reference occurs more
    than once among the transparent inputs, the verdict is
    [Invalid "bad-txns-inputs-duplicate"]. *)
Theorem duplicate_input_rejected (tx : CTransaction) (totals : CAmount * CAmount) :
  result (passes_4_1_to_4_4 tx) = Done totals ->
  occurs_twice (prevouts tx) ->
  result (CheckTransaction tx) = Invalid "bad-txns-inputs-duplicate".
Proof.
  intros Hpre Hdup. rewrite CheckTransaction_from_4_5, result_bind, Hpre.
  unfold from_4_5. rewrite result_bind, check_duplicate_inputs_eq.
  rewrite dup_loop_Invalid; [reflexivity|].
  intros [Hnd _]. exact (occurs_twice_not_NoDup _ Hdup Hnd).
Qed.

(** C6. When no key repeats within its own space (previous-output
    references, first-generation nullifiers, second-generation spend
    nullifiers), the checker returns none of the three duplicate reason
    codes, whatever the three spaces share with each other. *)
Theorem distinct_keys_no_duplicate_code (tx : CTransaction) :
  NoDup (prevouts tx) ->
  NoDup (sprout_nullifiers tx) ->
  NoDup (sapling_nullifiers tx) ->
  forall r, r ∈ duplicate_codes -> result (CheckTransaction tx) <> Invalid r.
Proof.
  intros H1 H2 H3 r Hdup Hr. revert Hdup. apply other_codes_not_duplicate.
  rewrite CheckTransaction_from_4_5 in Hr.
  apply bind_Invalid in Hr as [Hr | (totals & _ & Hr)].
  - exact (ends_within_Invalid _ _ _ (passes_4_1_to_4_4_ends_within tx) Hr).
  - rewrite from_4_5_distinct_keys in Hr by assumption.
    exact (ends_within_Invalid _ _ _ (check_coinbase_rules_ends_within tx) Hr).
Qed.

End DuplicateTheorems.

(** ** C7, C8: the balance delta and the join-split descriptions *)

Section PoolTheorems.
Context {ext : Externals}.

(** C7. On every transaction without second-generation spend or output
    descriptions that passes passes 4.1 and 4.2, a balance delta other than
    zero gives [Invalid "bad-txns-valuebalance-nonzero"], whatever the
    magnitude of the delta: the test comes before the magnitude test. *)
Theorem nonzero_delta_without_sapling_rejected
        (tx : CTransaction) (nValueOut : CAmount) :
  result (passes_4_1_to_4_2 tx) = Done nValueOut ->
  vShieldedSpend tx = [] ->
  vShieldedOutput tx = [] ->
  valueBalance tx <> 0 ->
  result (CheckTransaction tx) = Invalid "bad-txns-valuebalance-nonzero".
Proof.
  intros Hpre Hs Ho Hvb. rewrite CheckTransaction_from_4_3, result_bind, Hpre.
  unfold from_4_3. rewrite result_bind. unfold check_valueBalance.
  rewrite Hs, Ho. simpl.
  destruct (valueBalance tx =? 0) eqn:E; [lia | reflexivity].
Qed.

(** C8 (amended). On every transaction that reaches pass 4.4, if a
    first-generation description passes its per-amount tests and has both
    [vpub_old] and [vpub_new] non-zero, and every description before it
    passes all tests of the first traversal, the verdict is
    [Invalid "bad-txns-vpubs-both-nonzero"]. *)
Theorem both_nonzero_rejected
        (tx : CTransaction) (nValueOut nValueOut' : CAmount)
        (before after : list JSDescription) (js : JSDescription) :
  result (passes_4_1_to_4_3 tx) = Done nValueOut ->
  vJoinSplit tx = before ++ js :: after ->
  result (for_each joinsplit_body nValueOut before) = Done nValueOut' ->
  per_amount_checks_pass js = true ->
  vpub_old js <> 0 ->
  vpub_new js <> 0 ->
  result (CheckTransaction tx) = Invalid "bad-txns-vpubs-both-nonzero".
Proof.
  intros Hpre Hjs Hbefore Hamounts Hold Hnew.
  rewrite CheckTransaction_from_4_4, result_bind, Hpre.
  unfold from_4_4. rewrite result_bind, Hjs, for_each_app, result_bind, Hbefore.
  simpl. rewrite result_bind.
  unfold per_amount_checks_pass in Hamounts.
  apply andb_prop in Hamounts as [Hamounts H4].
  apply andb_prop in Hamounts as [Hamounts H3].
  apply andb_prop in Hamounts as [H1 H2].
  apply negb_true_iff in H1, H2, H3, H4.
  unfold joinsplit_body. rewrite H1, H2, H3, H4.
  destruct (vpub_new js =? 0) eqn:E1; [lia|].
  destruct (vpub_old js =? 0) eqn:E2; [lia|].
  reflexivity.
Qed.

End PoolTheorems.

(** ** C5, C9: the coinbase rules *)

Section CoinbaseTheorems.
Context {ext : Externals}.

(** C5. On every coinbase transaction that reaches pass 4.6, the verdict is
    [Invalid "bad-cb-length"] exactly when the length of the first input's
    unlocking script is below 2 or above 100; lengths 1 and 101 are
    rejected with that code, lengths 2 and 100 are not. *)
Theorem coinbase_script_length_rule (tx : CTransaction) :
  result (passes_4_1_to_4_5 tx) = Valid ->
  IsCoinBase tx = true ->
  exists in0 : CTxIn,
    head (vin tx) = Some in0 /\
    (result (CheckTransaction tx) = Invalid "bad-cb-length"
     <-> (length (scriptSig in0) < 2 \/ 100 < length (scriptSig in0))%nat) /\
    (length (scriptSig in0) = 1%nat \/ length (scriptSig in0) = 101%nat ->
     result (CheckTransaction tx) = Invalid "bad-cb-length") /\
    (length (scriptSig in0) = 2%nat \/ length (scriptSig in0) = 100%nat ->
     result (CheckTransaction tx) <> Invalid "bad-cb-length").
Proof.
  intros Hpre Hcb.
  destruct (IsCoinBase_first_input tx Hcb) as (in0 & Hin0 & _).
  exists in0.
  assert (Hres : result (CheckTransaction tx) = result (check_coinbase tx)).
  { rewrite CheckTransaction_from_4_6, result_bind, Hpre.
    unfold check_coinbase_rules. rewrite Hcb. reflexivity. }
  rewrite Hres, (check_coinbase_result tx in0 Hin0).
  split; [destruct (vin tx); [discriminate | exact Hin0]|].
  destruct ((length (scriptSig in0) <? 2)%nat || (100 <? length (scriptSig in0))%nat)
    eqn:E.
  - assert (Hlen : (length (scriptSig in0) < 2 \/ 100 < length (scriptSig in0))%nat).
    { apply orb_true_iff in E as [E|E]; apply Nat.ltb_lt in E; lia. }
    split; [split; [intros _; exact Hlen | reflexivity]|].
    split; [reflexivity | lia].
  - assert (Hlen : (2 <= length (scriptSig in0) <= 100)%nat).
    { apply orb_false_iff in E as [E1 E2].
      apply Nat.ltb_ge in E1, E2. lia. }
    assert (Hne : (if (0 <? length (vShieldedSpend tx))%nat
                   then Invalid "bad-cb-has-spend-description" else Valid)
                  <> Invalid "bad-cb-length").
    { destruct (0 <? _)%nat; discriminate. }
    split; [split; [intros H; contradiction | lia]|].
    split; [lia | intros _; exact Hne].
Qed.

(** C9. A coinbase transaction that reaches pass 4.6 has a non-empty input
    sequence, so each access [tx.vin[0]] of the coinbase branch is in
    bounds and its result is defined; a transaction with an empty input
    sequence is rejected in pass 4.1 or is not coinbase; the non-coinbase
    branch performs no indexed access; and the checker as a whole never
    ends in an undefined result. *)
Theorem coinbase_first_input_in_bounds (tx : CTransaction) :
  (result (passes_4_1_to_4_5 tx) = Valid -> IsCoinBase tx = true ->
   vin tx <> [] /\
   Forall index_in_bounds (trace (check_coinbase tx)) /\
   result (check_coinbase tx) <> Undefined) /\
  (vin tx = [] ->
   (exists r, result (check_basic tx) = Invalid r) \/ IsCoinBase tx = false) /\
  Forall (fun e => ~ is_index e) (trace (check_not_coinbase tx)) /\
  result (CheckTransaction tx) <> Undefined.
Proof.
  split; [|split; [|split]].
  - intros _ Hcb.
    destruct (IsCoinBase_first_input tx Hcb) as (in0 & Hin0 & _).
    assert (Hne : vin tx <> []) by (intros E; rewrite E in Hin0; discriminate).
    split; [exact Hne|]. split.
    + eapply Forall_impl; [apply check_coinbase_trace|].
      intros e ->. simpl. destruct (vin tx); [congruence | simpl; lia].
    + rewrite (check_coinbase_result tx in0 Hin0).
      repeat match goal with |- context [if ?b then _ else _] => destruct b end;
        discriminate.
  - intros Hempty. right. unfold IsCoinBase. rewrite Hempty. reflexivity.
  - rewrite check_not_coinbase_trace. constructor.
  - rewrite CheckTransaction_from_4_5, result_bind.
    pose proof (ends_within_defined _ _ (passes_4_1_to_4_4_ends_within tx)) as Hd.
    destruct (result (passes_4_1_to_4_4 tx)); [|discriminate|congruence].
    apply from_4_5_defined.
Qed.

End CoinbaseTheorems.

(** ** The theorems at the example transactions *)

Section Examples.
#[local] Existing Instance sample_externals.

Lemma sample_amounts_fit : amounts_fit.
Proof. unfold amounts_fit, INT64_MAX. simpl. lia. Defined.

Lemma sample_MAX_MONEY_is_amount : MAX_MONEY_is_amount.
Proof. unfold MAX_MONEY_is_amount, INT64_MAX. simpl. lia. Defined.

Lemma valid_transaction_totals_in_range_witness :
  MAX_MONEY_is_amount /\
  result (CheckTransaction tx_mixed) = Valid /\
  Forall (fun txout => in_money_range (nValue txout)) (vout tx_mixed) /\
  in_money_range (out_total tx_mixed) /\
  in_money_range (in_total tx_mixed).
Proof.
  assert (Hvalid : result (CheckTransaction tx_mixed) = Valid)
    by (vm_compute; reflexivity).
  split; [exact sample_MAX_MONEY_is_amount|]. split; [exact Hvalid|].
  exact (valid_transaction_totals_in_range
           tx_mixed sample_MAX_MONEY_is_amount Hvalid).
Defined.

Lemma checker_arithmetic_never_overflows_witness :
  amounts_fit /\ Forall safe_event (trace (CheckTransaction tx_mixed)).
Proof.
  split; [exact sample_amounts_fit|].
  exact (checker_arithmetic_never_overflows tx_mixed sample_amounts_fit).
Defined.

Lemma tx_twice_occurs_twice : occurs_twice (prevouts tx_twice).
Proof.
  exists 0%nat, 1%nat, outpoint_a. split; [discriminate|].
  split; reflexivity.
Defined.

Lemma duplicate_input_rejected_witness :
  result (passes_4_1_to_4_4 tx_twice) = Done (5000, 0) /\
  occurs_twice (prevouts tx_twice) /\
  result (CheckTransaction tx_twice) = Invalid "bad-txns-inputs-duplicate".
Proof.
  assert (Hpre : result (passes_4_1_to_4_4 tx_twice) = Done (5000, 0))
    by (vm_compute; reflexivity).
  split; [exact Hpre|]. split; [exact tx_twice_occurs_twice|].
  exact (duplicate_input_rejected tx_twice (5000, 0) Hpre tx_twice_occurs_twice).
Defined.

(** C2 as stated fails: with the same previous output spent twice and no
    output, the verdict is that of pass 4.1. *)
Lemma duplicate_input_other_verdict :
  occurs_twice (prevouts tx_twice_no_output) /\
  result (CheckTransaction tx_twice_no_output) = Invalid "bad-txns-vout-empty" /\
  result (CheckTransaction tx_twice_no_output) <> Invalid "bad-txns-inputs-duplicate".
Proof.
  split; [|split].
  - exists 0%nat, 1%nat, outpoint_a. split; [discriminate|]. split; reflexivity.
  - vm_compute. reflexivity.
  - vm_compute. discriminate.
Qed.

Lemma zero_delta_same_verdict_as_spec_variant_witness :
  valueBalance tx_zero_delta = 0 /\
  result (CheckTransaction tx_zero_delta) =
  result (CheckTransaction_spec tx_zero_delta).
Proof.
  split; [reflexivity|].
  exact (zero_delta_same_verdict_as_spec_variant tx_zero_delta eq_refl).
Defined.

Lemma coinbase_script_length_rule_witness :
  result (passes_4_1_to_4_5 (tx_coinbase 2)) = Valid /\
  IsCoinBase (tx_coinbase 2) = true /\
  exists in0 : CTxIn,
    head (vin (tx_coinbase 2)) = Some in0 /\
    (result (CheckTransaction (tx_coinbase 2)) = Invalid "bad-cb-length"
     <-> (length (scriptSig in0) < 2 \/ 100 < length (scriptSig in0))%nat) /\
    (length (scriptSig in0) = 1%nat \/ length (scriptSig in0) = 101%nat ->
     result (CheckTransaction (tx_coinbase 2)) = Invalid "bad-cb-length") /\
    (length (scriptSig in0) = 2%nat \/ length (scriptSig in0) = 100%nat ->
     result (CheckTransaction (tx_coinbase 2)) <> Invalid "bad-cb-length").
Proof.
  assert (Hpre : result (passes_4_1_to_4_5 (tx_coinbase 2)) = Valid)
    by (vm_compute; reflexivity).
  assert (Hcb : IsCoinBase (tx_coinbase 2) = true) by (vm_compute; reflexivity).
  split; [exact Hpre|]. split; [exact Hcb|].
  exact (coinbase_script_length_rule (tx_coinbase 2) Hpre Hcb).
Defined.

(** The four boundary lengths, evaluated. *)
Example coinbase_script_length_boundaries :
  result (CheckTransaction (tx_coinbase 1)) = Invalid "bad-cb-length" /\
  result (CheckTransaction (tx_coinbase 2)) = Valid /\
  result (CheckTransaction (tx_coinbase 100)) = Valid /\
  result (CheckTransaction (tx_coinbase 101)) = Invalid "bad-cb-length".
Proof. repeat split; vm_compute; reflexivity. Qed.

Lemma tx_mixed_distinct_keys :
  NoDup (prevouts tx_mixed) /\
  NoDup (sprout_nullifiers tx_mixed) /\
  NoDup (sapling_nullifiers tx_mixed).
Proof.
  repeat split; apply (bool_decide_unpack _); vm_compute; exact I.
Defined.

(** [tx_mixed] has the value 7 both as a first-generation nullifier and as
    a second-generation spend nullifier. *)
Lemma distinct_keys_no_duplicate_code_witness :
  (7%N ∈ sprout_nullifiers tx_mixed /\ 7%N ∈ sapling_nullifiers tx_mixed) /\
  NoDup (prevouts tx_mixed) /\
  NoDup (sprout_nullifiers tx_mixed) /\
  NoDup (sapling_nullifiers tx_mixed) /\
  forall r, r ∈ duplicate_codes -> result (CheckTransaction tx_mixed) <> Invalid r.
Proof.
  destruct tx_mixed_distinct_keys as (H1 & H2 & H3).
  split; [split; left|]. split; [exact H1|]. split; [exact H2|].
  split; [exact H3|].
  exact (distinct_keys_no_duplicate_code tx_mixed H1 H2 H3).
Defined.

Lemma nonzero_delta_without_sapling_rejected_witness :
  result (passes_4_1_to_4_2 tx_delta_no_sapling) = Done 5000 /\
  vShieldedSpend tx_delta_no_sapling = [] /\
  vShieldedOutput tx_delta_no_sapling = [] /\
  valueBalance tx_delta_no_sapling <> 0 /\
  valueBalance tx_delta_no_sapling > MAX_MONEY /\
  result (CheckTransaction tx_delta_no_sapling)
  = Invalid "bad-txns-valuebalance-nonzero".
Proof.
  assert (Hpre : result (passes_4_1_to_4_2 tx_delta_no_sapling) = Done 5000)
    by (vm_compute; reflexivity).
  assert (Hvb : valueBalance tx_delta_no_sapling <> 0) by (simpl; lia).
  split; [exact Hpre|]. split; [reflexivity|]. split; [reflexivity|].
  split; [exact Hvb|]. split; [simpl; lia|].
  exact (nonzero_delta_without_sapling_rejected
           tx_delta_no_sapling 5000 Hpre eq_refl eq_refl Hvb).
Defined.

Lemma both_nonzero_rejected_witness :
  result (passes_4_1_to_4_3 tx_good_then_both) = Done 0 /\
  vJoinSplit tx_good_then_both
  = [mkJS 40 0 (1, 2)%N] ++ mkJS 1 1 (3, 4)%N :: [] /\
  result (for_each joinsplit_body 0 [mkJS 40 0 (1, 2)%N]) = Done 40 /\
  per_amount_checks_pass (mkJS 1 1 (3, 4)%N) = true /\
  result (CheckTransaction tx_good_then_both)
  = Invalid "bad-txns-vpubs-both-nonzero".
Proof.
  assert (Hpre : result (passes_4_1_to_4_3 tx_good_then_both) = Done 0)
    by (vm_compute; reflexivity).
  assert (Hbefore : result (for_each joinsplit_body 0 [mkJS 40 0 (1, 2)%N]) = Done 40)
    by (vm_compute; reflexivity).
  assert (Hamounts : per_amount_checks_pass (mkJS 1 1 (3, 4)%N) = true)
    by (vm_compute; reflexivity).
  split; [exact Hpre|]. split; [reflexivity|]. split; [exact Hbefore|].
  split; [exact Hamounts|].
  refine (both_nonzero_rejected tx_good_then_both 0 40
            [mkJS 40 0 (1, 2)%N] [] (mkJS 1 1 (3, 4)%N)
            Hpre eq_refl Hbefore Hamounts _ _); simpl; lia.
Defined.

(** C8 as stated fails: the first description whose per-amount tests pass
    moves value in both directions, but the description before it fails a
    per-amount test, and that is the verdict. *)
Lemma both_nonzero_behind_failing_description :
  result (passes_4_1_to_4_3 tx_negative_then_both) = Done 0 /\
  find per_amount_checks_pass (vJoinSplit tx_negative_then_both)
  = Some (mkJS 1 1 (3, 4)%N) /\
  vpub_old (mkJS 1 1 (3, 4)%N) <> 0 /\
  vpub_new (mkJS 1 1 (3, 4)%N) <> 0 /\
  result (CheckTransaction tx_negative_then_both)
  = Invalid "bad-txns-vpub_old-negative" /\
  result (CheckTransaction tx_negative_then_both)
  <> Invalid "bad-txns-vpubs-both-nonzero".
Proof.
  split; [vm_compute; reflexivity|]. split; [vm_compute; reflexivity|].
  split; [simpl; lia|]. split; [simpl; lia|].
  split; [vm_compute; reflexivity | vm_compute; discriminate].
Qed.

Lemma second_traversal_amount_test_redundant_witness :
  MAX_MONEY_is_amount /\
  result (for_each joinsplit_body 5000 (vJoinSplit tx_zero_delta)) = Done 5040 /\
  Forall (fun it => MoneyRange (vpub_new it) = true) (vJoinSplit tx_zero_delta) /\
  (forall nValueIn,
     for_each valuein_body nValueIn (vJoinSplit tx_zero_delta) =
     for_each valuein_body_total_only nValueIn (vJoinSplit tx_zero_delta)) /\
  (result (for_each valuein_body 0 (vJoinSplit tx_zero_delta))
     = Invalid "bad-txns-txintotal-toolarge"
   <-> exists k, (k <= length (vJoinSplit tx_zero_delta))%nat /\
         ~ in_money_range (sum_amounts vpub_new (take k (vJoinSplit tx_zero_delta)))).
Proof.
  assert (Hfirst : result (for_each joinsplit_body 5000 (vJoinSplit tx_zero_delta))
                   = Done 5040) by (vm_compute; reflexivity).
  split; [exact sample_MAX_MONEY_is_amount|]. split; [exact Hfirst|].
  exact (second_traversal_amount_test_redundant
           tx_zero_delta 5000 5040 sample_MAX_MONEY_is_amount Hfirst).
Defined.

End Examples.

(** * Further properties of [CheckTransaction] *)

(** ** Loops that guard each element and accumulate a checked sum *)

Lemma sum_amounts_nonneg {A} (f : A -> CAmount) (l : list A) :
  Forall (fun a => 0 <= f a) l -> 0 <= sum_amounts f l.
Proof.
  induction 1 as [|a l Ha _ IH]; simpl; lia.
Qed.

Lemma sum_amounts_app {A} (f : A -> CAmount) (l1 l2 : list A) :
  sum_amounts f (l1 ++ l2) = sum_amounts f l1 + sum_amounts f l2.
Proof. induction l1 as [|a l1 IH]; simpl; lia. Qed.

Section CheckedSumLoop.
Context {ext : Externals} {A : Type}.
Variable body : CAmount -> A -> Check CAmount.
Variable f : A -> CAmount.
Variable ok : A -> Prop.
Variable code : string.
Hypothesis Hamount : MAX_MONEY_is_amount.
Hypothesis ok_range : forall a, ok a -> in_money_range (f a).
Hypothesis body_ok : forall s a, ok a -> body s a = accumulate code s (f a).
Hypothesis body_Done :
  forall s a r, in_money_range s -> result (body s a) = Done r -> ok a.

Lemma checked_sum_loop_Done (l : list A) : forall s r,
  in_money_range s ->
  (result (for_each body s l) = Done r <->
   Forall ok l /\ r = s + sum_amounts f l /\ in_money_range r).
Proof.
  induction l as [|a l IH]; intros s r Hs; simpl.
  - split.
    + intros [= <-]. split; [constructor|]. split; [lia | exact Hs].
    + intros (_ & -> & _). rewrite Z.add_0_r. reflexivity.
  - rewrite bind_Done. split.
    + intros (s1 & H1 & H2).
      pose proof (body_Done s a s1 Hs H1) as Ha.
      rewrite body_ok in H1 by exact Ha.
      apply accumulate_Done in H1 as [-> Hs1]; auto.
      apply IH in H2 as (Hl & -> & Hr); [|exact Hs1].
      split; [constructor; assumption|]. split; [lia | exact Hr].
    + intros (Hall & -> & Hr). apply Forall_cons in Hall as [Ha Hl].
      pose proof (ok_range a Ha) as Hfa.
      assert (Hrest : 0 <= sum_amounts f l).
      { apply sum_amounts_nonneg. eapply Forall_impl; [exact Hl|].
        intros a' Ha'. apply ok_range in Ha'. unfold in_money_range in Ha'. lia. }
      assert (Hs1 : in_money_range (s + f a))
        by (unfold in_money_range in *; lia).
      exists (s + f a). split.
      * rewrite body_ok, accumulate_result by assumption.
        apply MoneyRange_spec in Hs1. rewrite Hs1. reflexivity.
      * apply IH; [exact Hs1|]. split; [exact Hl|]. split; [lia|].
        replace (s + f a + sum_amounts f l) with (s + (f a + sum_amounts f l))
          by lia. exact Hr.
Qed.

(** With every element passing its own guard, the loop can only fail on
    the running total, and does so when the total exceeds the supply. *)
Lemma checked_sum_loop_overflow (l : list A) : forall s,
  in_money_range s -> Forall ok l -> MAX_MONEY < s + sum_amounts f l ->
  result (for_each body s l) = Invalid code.
Proof.
  induction l as [|a l IH]; intros s Hs Hall Hbig; simpl in *.
  - unfold in_money_range in Hs. lia.
  - apply Forall_cons in Hall as [Ha Hl]. pose proof (ok_range a Ha) as Hfa.
    rewrite result_bind, body_ok, accumulate_result by assumption.
    destruct (MoneyRange (s + f a)) eqn:E; [|reflexivity].
    apply MoneyRange_spec in E. apply IH; [exact E | exact Hl | lia].
Qed.

End CheckedSumLoop.

Lemma is_empty_spec {A} (l : list A) : is_empty l = true <-> l = [].
Proof. destruct l; simpl; split; congruence. Qed.

Lemma all_empty_spec {A B C} (a : list A) (b : list B) (c : list C) :
  is_empty a && is_empty b && is_empty c = true <-> a = [] /\ b = [] /\ c = [].
Proof. rewrite !andb_true_iff, !is_empty_spec. tauto. Qed.

Section AcceptanceLemmas.
Context {ext : Externals}.
Hypothesis Hamount : MAX_MONEY_is_amount.

Lemma vout_loop_Done_iff l s r :
  in_money_range s ->
  (result (for_each vout_body s l) = Done r <->
   Forall (fun txout => in_money_range (nValue txout)) l /\
   r = s + sum_amounts nValue l /\ in_money_range r).
Proof.
  apply (checked_sum_loop_Done vout_body nValue
           (fun txout => in_money_range (nValue txout))
           "bad-txns-txouttotal-toolarge" Hamount).
  - auto.
  - intros s' txout Hok. rewrite vout_body_accumulate.
    unfold in_money_range in Hok.
    destruct (nValue txout <? 0) eqn:E1; [lia|].
    destruct (nValue txout >? MAX_MONEY) eqn:E2; [lia | reflexivity].
  - intros s' txout r' Hs' H. apply vout_body_Done in H; tauto.
Qed.

Lemma joinsplit_body_ok s js :
  joinsplit_ok js ->
  joinsplit_body s js = accumulate "bad-txns-txouttotal-toolarge" s (vpub_old js).
Proof.
  intros (Hold & Hnew & Hone). rewrite joinsplit_body_accumulate.
  unfold in_money_range in *.
  destruct (vpub_old js <? 0) eqn:E1; [lia|].
  destruct (vpub_new js <? 0) eqn:E2; [lia|].
  destruct (vpub_old js >? MAX_MONEY) eqn:E3; [lia|].
  destruct (vpub_new js >? MAX_MONEY) eqn:E4; [lia|].
  destruct (vpub_new js =? 0) eqn:E5; destruct (vpub_old js =? 0) eqn:E6;
    simpl; try reflexivity. lia.
Qed.

Lemma joinsplit_loop_Done_iff l s r :
  in_money_range s ->
  (result (for_each joinsplit_body s l) = Done r <->
   Forall joinsplit_ok l /\
   r = s + sum_amounts vpub_old l /\ in_money_range r).
Proof.
  apply (checked_sum_loop_Done joinsplit_body vpub_old joinsplit_ok
           "bad-txns-txouttotal-toolarge" Hamount).
  - intros js (Hold & _). exact Hold.
  - intros s' js Hok. apply joinsplit_body_ok, Hok.
  - intros s' js r' _ H. apply joinsplit_body_amounts in H as [[Hold Hnew] Hone].
    split; [exact Hold|]. split; [exact Hnew | exact Hone].
Qed.

Lemma valuein_loop_Done_iff l s r :
  in_money_range s ->
  (result (for_each valuein_body s l) = Done r <->
   Forall (fun it => in_money_range (vpub_new it)) l /\
   r = s + sum_amounts vpub_new l /\ in_money_range r).
Proof.
  apply (checked_sum_loop_Done valuein_body vpub_new
           (fun it => in_money_range (vpub_new it))
           "bad-txns-txintotal-toolarge" Hamount).
  - auto.
  - intros s' it Hok. apply valuein_body_eq, Hok.
  - intros s' it r' Hs' H. apply valuein_body_Done in H; tauto.
Qed.

Lemma check_basic_Valid tx : result (check_basic tx) = Valid <-> shape_ok tx.
Proof.
  unfold check_basic, shape_ok.
  rewrite <- !all_empty_spec.
  destruct (is_empty (vin tx) && _ && _); simpl.
  { split; [discriminate | intros (H & _); exfalso; apply H; reflexivity]. }
  destruct (is_empty (vout tx) && _ && _); simpl.
  { split; [discriminate | intros (_ & H & _); exfalso; apply H; reflexivity]. }
  destruct (_ >? MAX_BLOCK_WEIGHT)%Z eqn:E; simpl.
  - split; [discriminate | intros (_ & _ & H); lia].
  - split; [|reflexivity]. intros _.
    split; [discriminate|]. split; [discriminate | lia].
Qed.

Lemma check_valueBalance_Done_iff tx s r :
  in_money_range s ->
  (result (check_valueBalance tx s) = Done r <->
   (vShieldedSpend tx = [] -> vShieldedOutput tx = [] -> valueBalance tx = 0) /\
   - MAX_MONEY <= valueBalance tx <= MAX_MONEY /\
   r = s + (if valueBalance tx <=? 0 then - valueBalance tx else 0) /\
   in_money_range r).
Proof.
  intros Hs. split.
  - intros H. pose proof (check_valueBalance_Done _ _ _ Hamount Hs H) as (Hvb & Hr & Hin).
    split; [|tauto]. intros He1 He2. revert H. unfold check_valueBalance.
    rewrite He1, He2. simpl.
    destruct (valueBalance tx =? 0) eqn:E; [lia | discriminate].
  - intros (Hzero & Hvb & -> & Hr). unfold check_valueBalance.
    assert (E1 : is_empty (vShieldedSpend tx) && is_empty (vShieldedOutput tx)
                 && negb (valueBalance tx =? 0) = false).
    { destruct (vShieldedSpend tx); [|reflexivity].
      destruct (vShieldedOutput tx); [|reflexivity].
      simpl. rewrite Hzero by reflexivity. reflexivity. }
    rewrite E1.
    assert (E2 : (valueBalance tx >? MAX_MONEY) || (valueBalance tx <? - MAX_MONEY)
                 = false) by lia.
    rewrite E2.
    destruct (valueBalance tx <=? 0) eqn:E0.
    + unfold neg_amount at 1. unfold bind at 1; simpl.
      rewrite neg64_exact by (apply in_money_range_neg; assumption).
      change (result (accumulate "bad-txns-txouttotal-toolarge" s (- valueBalance tx))
              = Done (s + - valueBalance tx)).
      rewrite accumulate_result; [| assumption.. | unfold in_money_range; lia].
      apply MoneyRange_spec in Hr. rewrite Hr. reflexivity.
    + rewrite Z.add_0_r. reflexivity.
Qed.

Lemma check_valueIn_sapling_Done_iff tx s r :
  in_money_range s -> - MAX_MONEY <= valueBalance tx <= MAX_MONEY ->
  (result (check_valueIn_sapling tx s) = Done r <->
   r = s + (if valueBalance tx >=? 0 then valueBalance tx else 0) /\
   in_money_range r).
Proof.
  intros Hs Hvb. split.
  - apply check_valueIn_sapling_Done; assumption.
  - intros (-> & Hr). rewrite check_valueIn_sapling_accumulate.
    destruct (valueBalance tx >=? 0) eqn:E.
    + rewrite accumulate_result; [| assumption.. | unfold in_money_range; lia].
      apply MoneyRange_spec in Hr. rewrite Hr. reflexivity.
    + rewrite Z.add_0_r. reflexivity.
Qed.

End AcceptanceLemmas.

Lemma dup_loop_Done_iff `{Countable K} (reason : string) (l : list K) :
  (exists seen, result (for_each (dup_body reason) ∅ l) = Done seen) <-> NoDup l.
Proof.
  split.
  - intros [seen Hseen]. destruct (decide (NoDup l)) as [Hnd|Hnd]; [exact Hnd|].
    rewrite dup_loop_Invalid in Hseen; [discriminate|]. intros [Hnd' _]. auto.
  - intros Hnd. eexists. apply dup_loop_Done; [exact Hnd|].
    intros k _. apply not_elem_of_empty.
Qed.

(** A loop that rejects at the first element satisfying a test. *)
Lemma guard_loop_result {A} (p : A -> bool) (code : string) (l : list A) :
  result (for_each (fun (_ : unit) a => if p a then reject code else ret tt) tt l)
  = if existsb p l then Invalid code else Valid.
Proof.
  induction l as [|a l IH]; simpl; [reflexivity|].
  rewrite result_bind. destruct (p a); simpl; [reflexivity | exact IH].
Qed.

Lemma existsb_false_Forall {A} (p : A -> bool) (l : list A) :
  existsb p l = false <-> Forall (fun a => p a = false) l.
Proof.
  induction l as [|a l IH]; simpl.
  - split; [constructor | reflexivity].
  - rewrite orb_false_iff, IH, Forall_cons. reflexivity.
Qed.

Section RoleLemmas.
Context {ext : Externals}.

Lemma check_not_coinbase_result tx :
  result (check_not_coinbase tx) =
  if existsb (fun txin => COutPoint_IsNull (prevout txin)) (vin tx)
  then Invalid "bad-txns-prevout-null"
  else if existsb (fun sd => uint256_IsNull (nullifier sd)) (vShieldedSpend tx)
       then Invalid "bad-spend-description-nullifier-null"
       else Valid.
Proof.
  unfold check_not_coinbase. rewrite result_bind.
  rewrite (guard_loop_result (fun txin => COutPoint_IsNull (prevout txin))).
  destruct (existsb _ (vin tx)); [reflexivity|].
  apply (guard_loop_result (fun sd => uint256_IsNull (nullifier sd))).
Qed.

Lemma check_coinbase_rules_Valid tx :
  result (check_coinbase_rules tx) = Valid <-> role_ok tx.
Proof.
  unfold check_coinbase_rules, role_ok. destruct (IsCoinBase tx) eqn:Ecb.
  - apply IsCoinBase_first_input in Ecb as (in0 & Hin0 & _).
    rewrite (check_coinbase_result tx in0 Hin0). unfold coinbase_ok.
    destruct (vin tx) as [|in0' rest]; [discriminate|].
    injection Hin0 as ->.
    destruct ((length (scriptSig in0) <? 2)%nat || (100 <? length (scriptSig in0))%nat)
      eqn:E.
    { split; [discriminate|]. intros [Hlen _].
      apply orb_true_iff in E as [E|E]; apply Nat.ltb_lt in E; lia. }
    apply orb_false_iff in E as [E1 E2]. apply Nat.ltb_ge in E1, E2.
    destruct (vShieldedSpend tx); simpl.
    + split; [intros _; split; [lia | reflexivity] | reflexivity].
    + split; [discriminate | intros [_ ?]; discriminate].
  - rewrite check_not_coinbase_result. unfold ordinary_ok.
    rewrite <- !existsb_false_Forall.
    destruct (existsb _ (vin tx)); [split; [discriminate | intros [? _]; discriminate]|].
    destruct (existsb _ (vShieldedSpend tx));
      [split; [discriminate | intros [_ ?]; discriminate]|].
    split; [intros _; split; reflexivity | reflexivity].
Qed.

End RoleLemmas.

(** ** X1: the checker accepts exactly the acceptable transactions *)

Section AcceptanceTheorem.
Context {ext : Externals}.

Lemma negative_part_nonneg (v : Z) : 0 <= (if v <=? 0 then - v else 0).
Proof. destruct (v <=? 0) eqn:E; lia. Qed.

Lemma positive_part_nonneg (v : Z) : 0 <= (if v >=? 0 then v else 0).
Proof. destruct (v >=? 0) eqn:E; lia. Qed.


End AcceptanceTheorem.

(** ** Which block returns which reason code *)

Lemma ends_within_mono {A} (codes codes' : list string) (m : Check A) :
  (forall r, r ∈ codes -> r ∈ codes') ->
  ends_within codes m -> ends_within codes' m.
Proof.
  unfold ends_within. intros Hsub. destruct (result m); auto.
Qed.

Lemma bind_Invalid_right {A B} codes (m : Check A) (f : A -> Check B) r :
  ends_within codes m -> r ∉ codes ->
  (result (bind m f) = Invalid r <->
   exists a, result m = Done a /\ result (f a) = Invalid r).
Proof.
  intros Hm Hr. rewrite bind_Invalid. split; [|auto].
  intros [H|H]; [|exact H]. exfalso. apply Hr.
  exact (ends_within_Invalid _ _ _ Hm H).
Qed.

Lemma bind_Invalid_left {A B} codes (m : Check A) (f : A -> Check B) r :
  (forall a, ends_within codes (f a)) -> r ∉ codes ->
  (result (bind m f) = Invalid r <-> result m = Invalid r).
Proof.
  intros Hf Hr. rewrite bind_Invalid. split; [|auto].
  intros [H|(a & _ & H)]; [exact H|]. exfalso. apply Hr.
  exact (ends_within_Invalid _ _ _ (Hf a) H).
Qed.

Ltac code_in := apply list_elem_of_In; vm_compute; tauto.

Ltac code_notin :=
  let H := fresh in
  intros H; apply list_elem_of_In in H; vm_compute in H;
  repeat (destruct H as [H|H]; [discriminate H|]); exact H.

Ltac codes_included :=
  let r := fresh "r" in
  let H := fresh in
  intros r H; apply list_elem_of_In in H; apply list_elem_of_In;
  vm_compute in H; vm_compute;
  repeat (destruct H as [H|H]; [subst r; tauto|]); destruct H.

Ltac split_checks_in :=
  repeat match goal with
         | |- ends_within _ (if ?b then _ else _) => destruct b eqn:?
         | |- ends_within _ (reject _) => apply ends_within_reject; code_in
         | |- ends_within _ (ret _) => apply ends_within_ret
         end.

Section CodeAttribution.
Context {ext : Externals}.

Lemma accumulate_ends_within_code code acc x :
  ends_within [code] (accumulate code acc x).
Proof.
  unfold accumulate, add_amount, bind, ends_within; simpl.
  destruct (negb _); simpl; [left | exact I].
Qed.

Lemma check_basic_codes tx : ends_within basic_codes (check_basic tx).
Proof. unfold check_basic. split_checks_in. Qed.

Lemma vout_loop_codes s l : ends_within vout_codes (for_each vout_body s l).
Proof.
  apply ends_within_for_each. intros s' txout.
  rewrite vout_body_accumulate. split_checks_in.
  eapply ends_within_mono; [|apply accumulate_ends_within_code]. codes_included.
Qed.

Lemma check_valueBalance_codes tx s :
  ends_within valueBalance_codes (check_valueBalance tx s).
Proof.
  unfold check_valueBalance. split_checks_in.
  apply ends_within_bind; [exact I|]. intros negated _.
  eapply ends_within_mono;
    [|apply (accumulate_ends_within_code "bad-txns-txouttotal-toolarge")].
  codes_included.
Qed.

Lemma joinsplit_loop_codes s l :
  ends_within joinsplit_codes (for_each joinsplit_body s l).
Proof.
  apply ends_within_for_each. intros s' js.
  rewrite joinsplit_body_accumulate. split_checks_in.
  eapply ends_within_mono; [|apply accumulate_ends_within_code]. codes_included.
Qed.

Lemma valuein_loop_codes s l :
  ends_within valuein_codes (for_each valuein_body s l).
Proof.
  apply ends_within_for_each. intros s' it.
  unfold valuein_body. apply ends_within_bind; [exact I|]. intros s'' _.
  split_checks_in.
Qed.

Lemma check_valueIn_sapling_codes tx s :
  ends_within valuein_codes (check_valueIn_sapling tx s).
Proof.
  rewrite check_valueIn_sapling_accumulate. split_checks_in.
  apply accumulate_ends_within_code.
Qed.

Lemma check_coinbase_rules_codes tx :
  ends_within role_codes (check_coinbase_rules tx).
Proof.
  unfold check_coinbase_rules. destruct (IsCoinBase tx) eqn:Ecb.
  - apply IsCoinBase_first_input in Ecb as (in0 & Hin0 & _).
    unfold ends_within. rewrite (check_coinbase_result tx in0 Hin0).
    repeat match goal with |- context [if ?b then _ else _] => destruct b end;
      try exact I; code_in.
  - unfold ends_within. rewrite check_not_coinbase_result.
    repeat match goal with |- context [if ?b then _ else _] => destruct b end;
      try exact I; code_in.
Qed.

(** The result of pass 4.5 and what follows, by the first key space with a
    repeated key. *)
Lemma from_4_5_result tx :
  result (from_4_5 tx) =
  if decide (NoDup (prevouts tx)) then
    if decide (NoDup (sprout_nullifiers tx)) then
      if decide (NoDup (sapling_nullifiers tx)) then
        result (check_coinbase_rules tx)
      else Invalid "bad-spend-description-nullifiers-duplicate"
    else Invalid "bad-joinsplits-nullifiers-duplicate"
  else Invalid "bad-txns-inputs-duplicate".
Proof.
  unfold from_4_5. rewrite result_bind, check_duplicate_inputs_eq.
  destruct (decide (NoDup (prevouts tx))) as [H1|H1];
    [| rewrite dup_loop_Invalid by tauto; reflexivity].
  rewrite dup_loop_Done; [| exact H1 | intros k _; apply not_elem_of_empty].
  rewrite result_bind, check_duplicate_sprout_eq.
  destruct (decide (NoDup (sprout_nullifiers tx))) as [H2|H2];
    [| rewrite dup_loop_Invalid by tauto; reflexivity].
  rewrite dup_loop_Done; [| exact H2 | intros k _; apply not_elem_of_empty].
  rewrite result_bind, check_duplicate_sapling_eq.
  destruct (decide (NoDup (sapling_nullifiers tx))) as [H3|H3];
    [| rewrite dup_loop_Invalid by tauto; reflexivity].
  rewrite dup_loop_Done; [| exact H3 | intros k _; apply not_elem_of_empty].
  reflexivity.
Qed.

Lemma from_4_5_codes tx : ends_within codes_from_4_5 (from_4_5 tx).
Proof.
  unfold ends_within. rewrite from_4_5_result.
  repeat match goal with |- context [if ?b then _ else _] => destruct b end;
    try code_in.
  eapply ends_within_mono; [|apply check_coinbase_rules_codes]. codes_included.
Qed.

Lemma from_4_4_codes tx s : ends_within codes_from_4_4 (from_4_4 tx s).
Proof.
  unfold from_4_4.
  apply ends_within_bind; [|intros v3 _].
  { eapply ends_within_mono; [|apply joinsplit_loop_codes]. codes_included. }
  apply ends_within_bind; [|intros i1 _].
  { eapply ends_within_mono; [|apply valuein_loop_codes]. codes_included. }
  apply ends_within_bind; [|intros i2 _].
  { eapply ends_within_mono; [|apply check_valueIn_sapling_codes]. codes_included. }
  eapply ends_within_mono; [|apply from_4_5_codes]. codes_included.
Qed.

Lemma from_4_3_codes tx s : ends_within codes_from_4_3 (from_4_3 tx s).
Proof.
  unfold from_4_3. apply ends_within_bind; [|intros v2 _].
  { eapply ends_within_mono; [|apply check_valueBalance_codes]. codes_included. }
  eapply ends_within_mono; [|apply from_4_4_codes]. codes_included.
Qed.

Lemma after_basic_codes tx :
  ends_within later_codes
    (bind (for_each vout_body 0 (vout tx)) (from_4_3 tx)).
Proof.
  apply ends_within_bind; [|intros v1 _].
  { eapply ends_within_mono; [|apply vout_loop_codes]. codes_included. }
  eapply ends_within_mono; [|apply from_4_3_codes]. codes_included.
Qed.

Lemma passes_4_1_to_4_2_codes tx :
  ends_within (basic_codes ++ vout_codes) (passes_4_1_to_4_2 tx).
Proof.
  unfold passes_4_1_to_4_2. apply ends_within_bind; [|intros _ _].
  { eapply ends_within_mono; [|apply check_basic_codes]. codes_included. }
  eapply ends_within_mono; [|apply vout_loop_codes]. codes_included.
Qed.

Lemma passes_4_1_to_4_3_codes tx :
  ends_within (basic_codes ++ vout_codes ++ valueBalance_codes)
              (passes_4_1_to_4_3 tx).
Proof.
  unfold passes_4_1_to_4_3. apply ends_within_bind; [|intros v _].
  { eapply ends_within_mono; [|apply passes_4_1_to_4_2_codes]. codes_included. }
  eapply ends_within_mono; [|apply check_valueBalance_codes]. codes_included.
Qed.

Lemma passes_4_1_to_4_4_codes tx :
  ends_within value_codes (passes_4_1_to_4_4 tx).
Proof.
  unfold passes_4_1_to_4_4, pass_4_4. apply ends_within_bind; [|intros v _].
  { eapply ends_within_mono; [|apply passes_4_1_to_4_3_codes]. codes_included. }
  apply ends_within_bind; [|intros v3 _].
  { eapply ends_within_mono; [|apply joinsplit_loop_codes]. codes_included. }
  apply ends_within_bind; [|intros i1 _].
  { eapply ends_within_mono; [|apply valuein_loop_codes]. codes_included. }
  apply ends_within_bind; [|intros i2 _; apply ends_within_ret].
  eapply ends_within_mono; [|apply check_valueIn_sapling_codes]. codes_included.
Qed.

(** X2. Whatever the transaction, the checker returns [Valid] or rejects
    with one of the twenty-one reason codes; no other code, and no undefined
    result. *)
Theorem CheckTransaction_reason_vocabulary (tx : CTransaction) :
  result (CheckTransaction tx) = Valid \/
  exists r, result (CheckTransaction tx) = Invalid r /\ r ∈ reason_codes.
Proof.
  assert (H : ends_within reason_codes (CheckTransaction tx)).
  { unfold CheckTransaction. apply ends_within_bind; [|intros _ _].
    - eapply ends_within_mono; [|apply check_basic_codes]. codes_included.
    - eapply ends_within_mono; [|apply after_basic_codes]. codes_included. }
  unfold ends_within in H. destruct (result (CheckTransaction tx)) as [[]|r|].
  - left. reflexivity.
  - right. exists r. split; [reflexivity | exact H].
  - destruct H.
Qed.

End CodeAttribution.

(** ** When a transaction reaches each pass *)

Section Reaching.
Context {ext : Externals}.
Hypothesis Hamount : MAX_MONEY_is_amount.

Lemma zero_in_money_range : in_money_range 0.
Proof. unfold in_money_range, MAX_MONEY_is_amount in *. lia. Qed.

Lemma vout_ok_sum_nonneg tx : vout_ok tx -> 0 <= sum_amounts nValue (vout tx).
Proof.
  intros [Hall _]. apply sum_amounts_nonneg. eapply Forall_impl; [exact Hall|].
  intros o Ho. unfold in_money_range in Ho. lia.
Qed.

Lemma passes_4_1_to_4_2_Done tx v :
  result (passes_4_1_to_4_2 tx) = Done v <->
  shape_ok tx /\ vout_ok tx /\ v = sum_amounts nValue (vout tx).
Proof.
  pose proof zero_in_money_range as H0.
  unfold passes_4_1_to_4_2. rewrite bind_Done. split.
  - intros ([] & Hb & H1). apply check_basic_Valid in Hb.
    apply vout_loop_Done_iff in H1 as (Hall & -> & Hr); [|assumption..].
    split; [exact Hb|]. unfold vout_ok, in_money_range in *.
    split; [split; [exact Hall | lia] | lia].
  - intros (Hb & Hok & ->). pose proof (vout_ok_sum_nonneg tx Hok) as Hnn.
    destruct Hok as [Hall Hsum].
    exists tt. split; [apply check_basic_Valid, Hb|].
    apply vout_loop_Done_iff; [assumption..|]. split; [exact Hall|].
    unfold in_money_range. split; lia.
Qed.

Lemma passes_4_1_to_4_3_Done tx v :
  result (passes_4_1_to_4_3 tx) = Done v <->
  shape_ok tx /\ vout_ok tx /\ delta_ok tx /\
  v = sum_amounts nValue (vout tx)
      + (if valueBalance tx <=? 0 then - valueBalance tx else 0).
Proof.
  unfold passes_4_1_to_4_3. rewrite bind_Done. split.
  - intros (v1 & H1 & H2). apply passes_4_1_to_4_2_Done in H1 as (Hb & Hok & ->).
    pose proof (vout_ok_sum_nonneg tx Hok) as Hnn.
    apply check_valueBalance_Done_iff in H2 as (Hzero & Hvb & -> & Hr);
      [| exact Hamount | destruct Hok; unfold in_money_range; lia].
    split; [exact Hb|]. split; [exact Hok|]. split; [|reflexivity].
    unfold delta_ok, in_money_range in *. tauto.
  - intros (Hb & Hok & (Hzero & Hvb & Hsum) & ->).
    pose proof (vout_ok_sum_nonneg tx Hok) as Hnn.
    pose proof (negative_part_nonneg (valueBalance tx)) as Hneg.
    exists (sum_amounts nValue (vout tx)). split.
    + apply passes_4_1_to_4_2_Done. tauto.
    + apply check_valueBalance_Done_iff;
        [ exact Hamount | destruct Hok; unfold in_money_range; lia |].
      split; [exact Hzero|]. split; [exact Hvb|]. split; [reflexivity|].
      unfold in_money_range. lia.
Qed.

Lemma values_ok_parts tx :
  values_ok tx <->
  vout_ok tx /\ delta_ok tx /\ Forall joinsplit_ok (vJoinSplit tx) /\
  out_total tx <= MAX_MONEY /\ in_total tx <= MAX_MONEY.
Proof.
  unfold values_ok, vout_ok, delta_ok, out_total. split.
  - intros (Hall & Hzero & Hvb & Hjs & Hout & Hin).
    pose proof (negative_part_nonneg (valueBalance tx)) as Hneg.
    assert (Hs2 : 0 <= sum_amounts vpub_old (vJoinSplit tx)).
    { apply sum_amounts_nonneg. eapply Forall_impl; [exact Hjs|].
      intros js (Ho & _). unfold in_money_range in Ho. lia. }
    repeat split; try assumption; try tauto; lia.
  - intros ((Hall & Hs) & (Hzero & Hvb & Hd) & Hjs & Hout & Hin).
    repeat split; try assumption; tauto.
Qed.

Lemma pass_4_4_Done tx v totals :
  in_money_range v -> - MAX_MONEY <= valueBalance tx <= MAX_MONEY ->
  (result (pass_4_4 tx v) = Done totals <->
   Forall joinsplit_ok (vJoinSplit tx) /\
   v + sum_amounts vpub_old (vJoinSplit tx) <= MAX_MONEY /\
   in_total tx <= MAX_MONEY /\
   totals = (v + sum_amounts vpub_old (vJoinSplit tx), in_total tx)).
Proof.
  intros Hv Hvb. pose proof zero_in_money_range as H0.
  pose proof (positive_part_nonneg (valueBalance tx)) as Hpos.
  unfold pass_4_4, in_total. split.
  - intros H.
    apply bind_Done in H as (v3 & H3 & H).
    apply bind_Done in H as (i1 & H4 & H).
    apply bind_Done in H as (i2 & H5 & H).
    injection H as <-.
    apply joinsplit_loop_Done_iff in H3 as (Hjs & -> & Hr3); [|assumption..].
    apply valuein_loop_Done_iff in H4 as (_ & -> & Hr4); [|assumption..].
    apply check_valueIn_sapling_Done_iff in H5 as (-> & Hr5); [|assumption..].
    unfold in_money_range in *. split; [exact Hjs|].
    split; [lia|]. split; [lia|]. f_equal.
  - intros (Hjs & Hout & Hin & ->).
    assert (Hs2 : 0 <= sum_amounts vpub_old (vJoinSplit tx)).
    { apply sum_amounts_nonneg. eapply Forall_impl; [exact Hjs|].
      intros js (Ho & _). unfold in_money_range in Ho. lia. }
    assert (Hs3 : 0 <= sum_amounts vpub_new (vJoinSplit tx)).
    { apply sum_amounts_nonneg. eapply Forall_impl; [exact Hjs|].
      intros js (_ & Hn & _). unfold in_money_range in Hn. lia. }
    apply bind_Done. exists (v + sum_amounts vpub_old (vJoinSplit tx)). split.
    { apply joinsplit_loop_Done_iff; [assumption..|]. split; [exact Hjs|].
      split; [reflexivity|]. unfold in_money_range in *. lia. }
    apply bind_Done. exists (0 + sum_amounts vpub_new (vJoinSplit tx)). split.
    { apply valuein_loop_Done_iff; [assumption..|]. split.
      - eapply Forall_impl; [exact Hjs|]. intros js (_ & Hn & _). exact Hn.
      - split; [reflexivity|]. unfold in_money_range. lia. }
    apply bind_Done.
    exists (0 + sum_amounts vpub_new (vJoinSplit tx)
            + (if valueBalance tx >=? 0 then valueBalance tx else 0)). split.
    { apply check_valueIn_sapling_Done_iff;
        [ exact Hamount | unfold in_money_range; lia | exact Hvb |].
      split; [reflexivity|]. unfold in_money_range. lia. }
    simpl. reflexivity.
Qed.

Lemma passes_4_1_to_4_4_Done tx :
  (exists totals, result (passes_4_1_to_4_4 tx) = Done totals) <->
  shape_ok tx /\ values_ok tx.
Proof.
  rewrite values_ok_parts. unfold passes_4_1_to_4_4. split.
  - intros (totals & H). apply bind_Done in H as (v & H3 & H4).
    apply passes_4_1_to_4_3_Done in H3 as (Hb & Hok & Hd & ->).
    pose proof (vout_ok_sum_nonneg tx Hok) as Hnn.
    pose proof (negative_part_nonneg (valueBalance tx)) as Hneg.
    apply pass_4_4_Done in H4 as (Hjs & Hout & Hin & _);
      [| destruct Hd as (_ & _ & ?); unfold in_money_range; lia
       | destruct Hd as (_ & ? & _); assumption ].
    unfold out_total. tauto.
  - intros (Hb & Hok & Hd & Hjs & Hout & Hin).
    pose proof (vout_ok_sum_nonneg tx Hok) as Hnn.
    pose proof (negative_part_nonneg (valueBalance tx)) as Hneg.
    eexists. apply bind_Done. eexists. split.
    + apply passes_4_1_to_4_3_Done. split; [exact Hb|]. split; [exact Hok|].
      split; [exact Hd | reflexivity].
    + apply pass_4_4_Done;
        [ destruct Hd as (_ & _ & ?); unfold in_money_range; lia
        | destruct Hd as (_ & ? & _); assumption |].
      unfold out_total in Hout. split; [exact Hjs|]. split; [exact Hout|].
      split; [exact Hin | reflexivity].
Qed.

End Reaching.

(** ** The verdicts of passes 4.1, 4.3, 4.5 and 4.6, stated on the
    transaction *)

Section VerdictTheorems.
Context {ext : Externals}.

Lemma CheckTransaction_after_basic tx :
  CheckTransaction tx =
  bind (check_basic tx)
       (fun _ => bind (for_each vout_body 0 (vout tx)) (from_4_3 tx)).
Proof. reflexivity. Qed.

Lemma check_basic_Invalid tx r :
  result (check_basic tx) = Invalid r <->
  (r = "bad-txns-vin-empty" /\
   vin tx = [] /\ vJoinSplit tx = [] /\ vShieldedSpend tx = []) \/
  (r = "bad-txns-vout-empty" /\
   ~ (vin tx = [] /\ vJoinSplit tx = [] /\ vShieldedSpend tx = []) /\
   vout tx = [] /\ vJoinSplit tx = [] /\ vShieldedOutput tx = []) \/
  (r = "bad-txns-oversize" /\
   ~ (vin tx = [] /\ vJoinSplit tx = [] /\ vShieldedSpend tx = []) /\
   ~ (vout tx = [] /\ vJoinSplit tx = [] /\ vShieldedOutput tx = []) /\
   MAX_BLOCK_WEIGHT < (GetSerializeSize tx * WITNESS_SCALE_FACTOR) mod 2 ^ 64).
Proof.
  unfold check_basic. rewrite <- !all_empty_spec.
  destruct (is_empty (vin tx) && _ && _) eqn:E1; simpl.
  { split.
    - intros [= <-]. left. auto.
    - intros [(-> & _) | [(_ & H & _) | (_ & H & _)]];
        [reflexivity | destruct (H eq_refl) | destruct (H eq_refl)]. }
  destruct (is_empty (vout tx) && _ && _) eqn:E2; simpl.
  { split.
    - intros [= <-]. right. left. split; [reflexivity|].
      split; [discriminate | reflexivity].
    - intros [(_ & H) | [(-> & _) | (_ & _ & H & _)]];
        [discriminate | reflexivity | destruct (H eq_refl)]. }
  destruct (_ >? MAX_BLOCK_WEIGHT)%Z eqn:E3; simpl.
  - split.
    + intros [= <-]. right. right. split; [reflexivity|].
      split; [discriminate|]. split; [discriminate | lia].
    + intros [(_ & H) | [(_ & _ & H) | (-> & _)]];
        [discriminate | discriminate | reflexivity].
  - split; [discriminate|].
    intros [(_ & H) | [(_ & _ & H) | (_ & _ & _ & H)]];
      [discriminate | discriminate | lia].
Qed.

(** X3. The three verdicts of lines 13-19, each with the transactions that
    get it: no input side at all; an input side but no output side; both
    sides but a scaled serialized size above [MAX_BLOCK_WEIGHT].  Nothing
    else in the transaction matters. *)
Theorem basic_check_verdicts (tx : CTransaction) :
  (result (CheckTransaction tx) = Invalid "bad-txns-vin-empty" <->
   vin tx = [] /\ vJoinSplit tx = [] /\ vShieldedSpend tx = []) /\
  (result (CheckTransaction tx) = Invalid "bad-txns-vout-empty" <->
   ~ (vin tx = [] /\ vJoinSplit tx = [] /\ vShieldedSpend tx = []) /\
   vout tx = [] /\ vJoinSplit tx = [] /\ vShieldedOutput tx = []) /\
  (result (CheckTransaction tx) = Invalid "bad-txns-oversize" <->
   ~ (vin tx = [] /\ vJoinSplit tx = [] /\ vShieldedSpend tx = []) /\
   ~ (vout tx = [] /\ vJoinSplit tx = [] /\ vShieldedOutput tx = []) /\
   MAX_BLOCK_WEIGHT < (GetSerializeSize tx * WITNESS_SCALE_FACTOR) mod 2 ^ 64).
Proof.
  rewrite CheckTransaction_after_basic.
  split; [|split];
    (rewrite (bind_Invalid_left later_codes);
     [ | intros _; apply after_basic_codes | code_notin ]);
    rewrite check_basic_Invalid;
    (split;
     [ intros [(E & H) | [(E & H) | (E & H)]]; try discriminate E; exact H
     | intros H; auto ]).
Qed.

Hypothesis Hamount : MAX_MONEY_is_amount.

Lemma check_valueBalance_Invalid tx s r :
  r <> "bad-txns-txouttotal-toolarge" ->
  (result (check_valueBalance tx s) = Invalid r <->
   (r = "bad-txns-valuebalance-nonzero" /\
    vShieldedSpend tx = [] /\ vShieldedOutput tx = [] /\ valueBalance tx <> 0) \/
   (r = "bad-txns-valuebalance-toolarge" /\
    (vShieldedSpend tx <> [] \/ vShieldedOutput tx <> []) /\
    (MAX_MONEY < valueBalance tx \/ valueBalance tx < - MAX_MONEY))).
Proof.
  intros Hr. unfold check_valueBalance.
  assert (Hm : 0 <= MAX_MONEY) by (unfold MAX_MONEY_is_amount in *; lia).
  destruct (vShieldedSpend tx) as [|sd spends];
    destruct (vShieldedOutput tx) as [|od outputs]; simpl;
    destruct (valueBalance tx =? 0) eqn:E0; simpl;
    destruct ((valueBalance tx >? MAX_MONEY) || (valueBalance tx <? - MAX_MONEY))
      eqn:E1; simpl;
    try (split;
         [ intros [= <-]; (left + right); repeat split; auto; try discriminate; lia
         | intros [(-> & ? & ? & ?) | (-> & [?|?] & ?)];
           try reflexivity; try discriminate; try congruence; lia ]);
    (destruct (valueBalance tx <=? 0) eqn:E2;
     [ unfold neg_amount, add_amount, bind; simpl;
       destruct (negb _); simpl
     | simpl ]);
    (split;
     [ intros H; try discriminate H; injection H as <-; congruence
     | intros [(-> & ? & ? & ?) | (-> & [?|?] & ?)];
       try discriminate; try congruence; lia ]).
Qed.

(** X4. The two verdicts on the balance delta alone.  The delta is
    "non-zero" exactly on the transactions that pass lines 13-32, have
    neither spend nor output descriptions, and a delta other than zero; it
    is "too large" exactly on those that pass lines 13-32, have a spend or
    an output description, and a delta above [MAX_MONEY] or below
    [- MAX_MONEY]. *)
Theorem valueBalance_verdicts (tx : CTransaction) :
  (result (CheckTransaction tx) = Invalid "bad-txns-valuebalance-nonzero" <->
   shape_ok tx /\ vout_ok tx /\
   vShieldedSpend tx = [] /\ vShieldedOutput tx = [] /\ valueBalance tx <> 0) /\
  (result (CheckTransaction tx) = Invalid "bad-txns-valuebalance-toolarge" <->
   shape_ok tx /\ vout_ok tx /\
   (vShieldedSpend tx <> [] \/ vShieldedOutput tx <> []) /\
   (MAX_MONEY < valueBalance tx \/ valueBalance tx < - MAX_MONEY)).
Proof.
  rewrite CheckTransaction_from_4_3.
  split;
    (rewrite (bind_Invalid_right (basic_codes ++ vout_codes));
     [ | apply passes_4_1_to_4_2_codes | ]).
  - split.
    + intros (v & H2 & H). apply (passes_4_1_to_4_2_Done Hamount) in H2 as (Hb & Hok & _).
      unfold from_4_3 in H.
      rewrite (bind_Invalid_left codes_from_4_4) in H;
        [ | intros; apply from_4_4_codes | code_notin ].
      apply check_valueBalance_Invalid in H; [|discriminate].
      destruct H as [(_ & H) | (E & _)]; [tauto | discriminate E].
    + intros (Hb & Hok & Hs & Ho & Hvb). eexists. split.
      * apply (passes_4_1_to_4_2_Done Hamount). split; [exact Hb|].
        split; [exact Hok | reflexivity].
      * unfold from_4_3.
        rewrite (bind_Invalid_left codes_from_4_4);
          [ | intros; apply from_4_4_codes | code_notin ].
        apply check_valueBalance_Invalid; [discriminate|]. left. tauto.
  - code_notin.
  - split.
    + intros (v & H2 & H). apply (passes_4_1_to_4_2_Done Hamount) in H2 as (Hb & Hok & _).
      unfold from_4_3 in H.
      rewrite (bind_Invalid_left codes_from_4_4) in H;
        [ | intros; apply from_4_4_codes | code_notin ].
      apply check_valueBalance_Invalid in H; [|discriminate].
      destruct H as [(E & _) | (_ & H)]; [discriminate E | tauto].
    + intros (Hb & Hok & Hs & Hvb). eexists. split.
      * apply (passes_4_1_to_4_2_Done Hamount). split; [exact Hb|].
        split; [exact Hok | reflexivity].
      * unfold from_4_3.
        rewrite (bind_Invalid_left codes_from_4_4);
          [ | intros; apply from_4_4_codes | code_notin ].
        apply check_valueBalance_Invalid; [discriminate|]. right. tauto.
  - code_notin.
Qed.

End VerdictTheorems.

Section KeyAndRoleVerdicts.
Context {ext : Externals}.
Hypothesis Hamount : MAX_MONEY_is_amount.

Lemma CheckTransaction_Invalid_from_4_5 tx r :
  r ∉ value_codes ->
  (result (CheckTransaction tx) = Invalid r <->
   shape_ok tx /\ values_ok tx /\ result (from_4_5 tx) = Invalid r).
Proof.
  intros Hr. rewrite CheckTransaction_from_4_5.
  rewrite (bind_Invalid_right value_codes);
    [ | apply passes_4_1_to_4_4_codes | exact Hr ].
  pose proof (passes_4_1_to_4_4_Done Hamount tx) as Hreach. split.
  - intros (totals & H1 & H2).
    destruct (proj1 Hreach (ex_intro _ totals H1)) as [Hb Hv]. auto.
  - intros (Hb & Hv & H2).
    destruct (proj2 Hreach (conj Hb Hv)) as [totals H1]. eauto.
Qed.

Lemma check_coinbase_rules_not_duplicate tx r :
  r ∈ duplicate_codes -> result (check_coinbase_rules tx) <> Invalid r.
Proof.
  intros Hr H.
  pose proof (ends_within_Invalid _ _ _ (check_coinbase_rules_codes tx) H) as Hin.
  apply list_elem_of_In in Hr, Hin. vm_compute in Hr, Hin.
  repeat (destruct Hr as [<-|Hr];
          [repeat (destruct Hin as [Hin|Hin]; [discriminate Hin|]); exact Hin|]).
  exact Hr.
Qed.

(** X5. The three duplicate verdicts, each with the transactions that get
    it: those that pass every check before line 100 and have a repeated key
    in that key space and none in the key spaces checked before it. *)
Theorem duplicate_verdicts (tx : CTransaction) :
  (result (CheckTransaction tx) = Invalid "bad-txns-inputs-duplicate" <->
   shape_ok tx /\ values_ok tx /\ ~ NoDup (prevouts tx)) /\
  (result (CheckTransaction tx) = Invalid "bad-joinsplits-nullifiers-duplicate" <->
   shape_ok tx /\ values_ok tx /\ NoDup (prevouts tx) /\
   ~ NoDup (sprout_nullifiers tx)) /\
  (result (CheckTransaction tx)
   = Invalid "bad-spend-description-nullifiers-duplicate" <->
   shape_ok tx /\ values_ok tx /\ NoDup (prevouts tx) /\
   NoDup (sprout_nullifiers tx) /\ ~ NoDup (sapling_nullifiers tx)).
Proof.
  split; [|split];
    (rewrite CheckTransaction_Invalid_from_4_5 by code_notin);
    rewrite from_4_5_result;
    destruct (decide (NoDup (prevouts tx))) as [H1|H1];
    try destruct (decide (NoDup (sprout_nullifiers tx))) as [H2|H2];
    try destruct (decide (NoDup (sapling_nullifiers tx))) as [H3|H3];
    (split;
     [ intros (Hb & Hv & H); try discriminate H;
       try (exfalso; revert H; apply check_coinbase_rules_not_duplicate; code_in);
       tauto
     | intros H; try tauto ]).
Qed.

Lemma check_coinbase_rules_Invalid tx r :
  result (check_coinbase_rules tx) = Invalid r <->
  (IsCoinBase tx = true /\
   exists in0, head (vin tx) = Some in0 /\
     ((r = "bad-cb-length" /\
       (length (scriptSig in0) < 2 \/ 100 < length (scriptSig in0))%nat) \/
      (r = "bad-cb-has-spend-description" /\
       (2 <= length (scriptSig in0) <= 100)%nat /\ vShieldedSpend tx <> []))) \/
  (IsCoinBase tx = false /\
   ((r = "bad-txns-prevout-null" /\
     Exists (fun txin => COutPoint_IsNull (prevout txin) = true) (vin tx)) \/
    (r = "bad-spend-description-nullifier-null" /\
     Forall (fun txin => COutPoint_IsNull (prevout txin) = false) (vin tx) /\
     Exists (fun sd => uint256_IsNull (nullifier sd) = true) (vShieldedSpend tx)))).
Proof.
  unfold check_coinbase_rules. destruct (IsCoinBase tx) eqn:Ecb.
  - apply IsCoinBase_first_input in Ecb as (in0 & Hin0 & _).
    rewrite (check_coinbase_result tx in0 Hin0).
    assert (Hhead : head (vin tx) = Some in0)
      by (destruct (vin tx); [discriminate | exact Hin0]).
    destruct ((length (scriptSig in0) <? 2)%nat || (100 <? length (scriptSig in0))%nat)
      eqn:E.
    + assert (Hlen : (length (scriptSig in0) < 2 \/ 100 < length (scriptSig in0))%nat).
      { apply orb_true_iff in E as [E|E]; apply Nat.ltb_lt in E; lia. }
      split.
      * intros [= <-]. left. split; [reflexivity|]. exists in0. auto.
      * intros [(_ & in0' & Hh & [(-> & _) | (_ & Hl & _)]) | (E' & _)];
          [reflexivity | | discriminate E'].
        rewrite Hhead in Hh. injection Hh as <-. lia.
    + apply orb_false_iff in E as [E1 E2]. apply Nat.ltb_ge in E1, E2.
      destruct (vShieldedSpend tx) as [|sd spends]; simpl.
      * split; [discriminate|].
        intros [(_ & in0' & Hh & [(_ & Hl) | (_ & _ & Hs)]) | (E' & _)];
          [ | destruct (Hs eq_refl) | discriminate E'].
        rewrite Hhead in Hh. injection Hh as <-. lia.
      * split.
        -- intros [= <-]. left. split; [reflexivity|]. exists in0.
           split; [exact Hhead|]. right. split; [reflexivity|].
           split; [lia | discriminate].
        -- intros [(_ & in0' & Hh & [(_ & Hl) | (-> & _)]) | (E' & _)];
             [ | reflexivity | discriminate E'].
           rewrite Hhead in Hh. injection Hh as <-. lia.
  - rewrite check_not_coinbase_result.
    destruct (existsb (fun txin => COutPoint_IsNull (prevout txin)) (vin tx)) eqn:E1.
    + assert (Hex : Exists (fun txin => COutPoint_IsNull (prevout txin) = true) (vin tx)).
      { apply existsb_exists in E1 as (txin & Hin & Hnull).
        apply Exists_exists. exists txin. split; [apply list_elem_of_In, Hin | exact Hnull]. }
      split.
      * intros [= <-]. right. split; [reflexivity|]. left. auto.
      * intros [(E' & _) | (_ & [(-> & _) | (_ & Hall & _)])];
          [discriminate E' | reflexivity |].
        apply existsb_false_Forall in Hall. congruence.
    + pose proof (proj1 (existsb_false_Forall _ _) E1) as Hall.
      assert (Hnex : ~ Exists (fun txin => COutPoint_IsNull (prevout txin) = true) (vin tx)).
      { intros Hex. apply Exists_exists in Hex as (txin & Hin & Hnull).
        rewrite Forall_forall in Hall. rewrite (Hall txin Hin) in Hnull.
        discriminate. }
      destruct (existsb (fun sd => uint256_IsNull (nullifier sd)) (vShieldedSpend tx))
        eqn:E2.
      * assert (Hex : Exists (fun sd => uint256_IsNull (nullifier sd) = true)
                             (vShieldedSpend tx)).
        { apply existsb_exists in E2 as (sd & Hin & Hnull).
          apply Exists_exists. exists sd. split; [apply list_elem_of_In, Hin | exact Hnull]. }
        split.
        -- intros [= <-]. right. split; [reflexivity|]. right. auto.
        -- intros [(E' & _) | (_ & [(_ & Hex') | (-> & _)])];
             [discriminate E' | contradiction | reflexivity].
      * pose proof (proj1 (existsb_false_Forall _ _) E2) as Hall2.
        split; [discriminate|].
        intros [(E' & _) | (_ & [(_ & Hex') | (_ & _ & Hex')])];
          [discriminate E' | contradiction |].
        apply Exists_exists in Hex' as (sd & Hin & Hnull).
        rewrite Forall_forall in Hall2. rewrite (Hall2 sd Hin) in Hnull.
        discriminate.
Qed.

Lemma from_4_5_role_code tx r :
  r ∈ role_codes ->
  (result (from_4_5 tx) = Invalid r <->
   keys_distinct tx /\ result (check_coinbase_rules tx) = Invalid r).
Proof.
  intros Hr. rewrite from_4_5_result. unfold keys_distinct.
  assert (Hnd : r ∉ duplicate_codes).
  { intros Hd. apply list_elem_of_In in Hr, Hd. vm_compute in Hr, Hd.
    repeat (destruct Hr as [<-|Hr];
            [repeat (destruct Hd as [Hd|Hd]; [discriminate Hd|]); exact Hd|]).
    exact Hr. }
  destruct (decide (NoDup (prevouts tx))) as [H1|H1];
    try destruct (decide (NoDup (sprout_nullifiers tx))) as [H2|H2];
    try destruct (decide (NoDup (sapling_nullifiers tx))) as [H3|H3];
    (split; [ intros H | intros (? & H); try tauto ]);
    try tauto;
    injection H as <-; exfalso; apply Hnd; code_in.
Qed.

(** X6. The verdicts of lines 128-139, each with the transactions that get
    it.  All of them pass every earlier check, with distinct keys.  A
    coinbase transaction whose first unlocking script has a length from 2
    to 100 and that has a spend description gets
    "bad-cb-has-spend-description"; a non-coinbase transaction with a null
    previous-output reference gets "bad-txns-prevout-null"; a non-coinbase
    transaction without one and with a null spend nullifier gets
    "bad-spend-description-nullifier-null". *)
Theorem role_verdicts (tx : CTransaction) :
  (result (CheckTransaction tx) = Invalid "bad-cb-has-spend-description" <->
   shape_ok tx /\ values_ok tx /\ keys_distinct tx /\ IsCoinBase tx = true /\
   (exists in0, head (vin tx) = Some in0 /\
                (2 <= length (scriptSig in0) <= 100)%nat) /\
   vShieldedSpend tx <> []) /\
  (result (CheckTransaction tx) = Invalid "bad-txns-prevout-null" <->
   shape_ok tx /\ values_ok tx /\ keys_distinct tx /\ IsCoinBase tx = false /\
   Exists (fun txin => COutPoint_IsNull (prevout txin) = true) (vin tx)) /\
  (result (CheckTransaction tx) = Invalid "bad-spend-description-nullifier-null" <->
   shape_ok tx /\ values_ok tx /\ keys_distinct tx /\ IsCoinBase tx = false /\
   Forall (fun txin => COutPoint_IsNull (prevout txin) = false) (vin tx) /\
   Exists (fun sd => uint256_IsNull (nullifier sd) = true) (vShieldedSpend tx)).
Proof.
  split; [|split];
    (rewrite CheckTransaction_Invalid_from_4_5 by code_notin);
    (rewrite from_4_5_role_code by code_in);
    rewrite check_coinbase_rules_Invalid.
  - split.
    + intros (Hb & Hv & Hk & [(Hcb & in0 & Hh & [(E & _) | (_ & Hl & Hs)])
                             | (_ & [(E & _) | (E & _)])]);
        try discriminate E.
      repeat (split; [assumption|]). split; [|exact Hs]. exists in0. auto.
    + intros (Hb & Hv & Hk & Hcb & (in0 & Hh & Hl) & Hs).
      repeat (split; [assumption|]). left. split; [exact Hcb|].
      exists in0. split; [exact Hh|]. right. auto.
  - split.
    + intros (Hb & Hv & Hk & [(Hcb & in0 & Hh & [(E & _) | (E & _)])
                             | (Hcb & [(_ & Hex) | (E & _)])]);
        try discriminate E.
      repeat (split; [assumption|]). exact Hex.
    + intros (Hb & Hv & Hk & Hcb & Hex).
      repeat (split; [assumption|]). right. split; [exact Hcb|]. left. auto.
  - split.
    + intros (Hb & Hv & Hk & [(Hcb & in0 & Hh & [(E & _) | (E & _)])
                             | (Hcb & [(E & _) | (_ & Hall & Hex)])]);
        try discriminate E.
      repeat (split; [assumption|]). exact Hex.
    + intros (Hb & Hv & Hk & Hcb & Hall & Hex).
      repeat (split; [assumption|]). right. split; [exact Hcb|]. right. auto.
Qed.

End KeyAndRoleVerdicts.

(** ** The verdicts on amounts and totals *)

Section TotalVerdicts.
Context {ext : Externals}.
Hypothesis Hamount : MAX_MONEY_is_amount.

Lemma vout_loop_overflow l s :
  in_money_range s ->
  Forall (fun txout => in_money_range (nValue txout)) l ->
  MAX_MONEY < s + sum_amounts nValue l ->
  result (for_each vout_body s l) = Invalid "bad-txns-txouttotal-toolarge".
Proof.
  apply (checked_sum_loop_overflow vout_body nValue
           (fun txout => in_money_range (nValue txout))
           "bad-txns-txouttotal-toolarge" Hamount).
  - auto.
  - intros s' txout Hok. rewrite vout_body_accumulate.
    unfold in_money_range in Hok.
    destruct (nValue txout <? 0) eqn:E1; [lia|].
    destruct (nValue txout >? MAX_MONEY) eqn:E2; [lia | reflexivity].
Qed.

Lemma joinsplit_loop_overflow l s :
  in_money_range s -> Forall joinsplit_ok l ->
  MAX_MONEY < s + sum_amounts vpub_old l ->
  result (for_each joinsplit_body s l) = Invalid "bad-txns-txouttotal-toolarge".
Proof.
  apply (checked_sum_loop_overflow joinsplit_body vpub_old joinsplit_ok
           "bad-txns-txouttotal-toolarge" Hamount).
  - intros js (Hold & _). exact Hold.
  - intros s' js Hok. apply joinsplit_body_ok, Hok.
Qed.

Lemma valuein_loop_overflow l s :
  in_money_range s -> Forall (fun it => in_money_range (vpub_new it)) l ->
  MAX_MONEY < s + sum_amounts vpub_new l ->
  result (for_each valuein_body s l) = Invalid "bad-txns-txintotal-toolarge".
Proof.
  apply (checked_sum_loop_overflow valuein_body vpub_new
           (fun it => in_money_range (vpub_new it))
           "bad-txns-txintotal-toolarge" Hamount).
  - auto.
  - intros s' it Hok. apply valuein_body_eq, Hok.
Qed.

Lemma check_valueBalance_overflow tx s :
  in_money_range s ->
  (vShieldedSpend tx = [] -> vShieldedOutput tx = [] -> valueBalance tx = 0) ->
  - MAX_MONEY <= valueBalance tx <= MAX_MONEY ->
  MAX_MONEY < s + (if valueBalance tx <=? 0 then - valueBalance tx else 0) ->
  result (check_valueBalance tx s) = Invalid "bad-txns-txouttotal-toolarge".
Proof.
  intros Hs Hzero Hvb Hbig. unfold check_valueBalance.
  assert (E1 : is_empty (vShieldedSpend tx) && is_empty (vShieldedOutput tx)
               && negb (valueBalance tx =? 0) = false).
  { destruct (vShieldedSpend tx); [|reflexivity].
    destruct (vShieldedOutput tx); [|reflexivity].
    simpl. rewrite Hzero by reflexivity. reflexivity. }
  rewrite E1.
  assert (E2 : (valueBalance tx >? MAX_MONEY) || (valueBalance tx <? - MAX_MONEY)
               = false) by lia.
  rewrite E2.
  destruct (valueBalance tx <=? 0) eqn:E0;
    [| unfold in_money_range in Hs; lia].
  unfold neg_amount at 1. unfold bind at 1; simpl.
  rewrite neg64_exact by (apply in_money_range_neg; assumption).
  change (result (accumulate "bad-txns-txouttotal-toolarge" s (- valueBalance tx))
          = Invalid "bad-txns-txouttotal-toolarge").
  rewrite accumulate_result; [| assumption.. | unfold in_money_range; lia].
  assert (E : MoneyRange (s + - valueBalance tx) = false)
    by (unfold MoneyRange; lia).
  rewrite E. reflexivity.
Qed.

Lemma check_valueIn_sapling_Invalid tx s :
  in_money_range s -> - MAX_MONEY <= valueBalance tx <= MAX_MONEY ->
  (result (check_valueIn_sapling tx s) = Invalid "bad-txns-txintotal-toolarge"
   <-> MAX_MONEY < s + (if valueBalance tx >=? 0 then valueBalance tx else 0)).
Proof.
  intros Hs Hvb. rewrite check_valueIn_sapling_accumulate.
  destruct (valueBalance tx >=? 0) eqn:E.
  - rewrite accumulate_result; [| assumption.. | unfold in_money_range; lia].
    destruct (MoneyRange (s + valueBalance tx)) eqn:Er.
    + apply MoneyRange_spec in Er. unfold in_money_range in Er.
      split; [discriminate | lia].
    + apply MoneyRange_false in Er. unfold in_money_range in *.
      split; [intros _; lia | reflexivity].
  - simpl. unfold in_money_range in Hs. split; [discriminate | lia].
Qed.


(** X8. Overflow of the input side.  The verdict is
    "bad-txns-txintotal-toolarge" exactly on the transactions that pass
    every check of the output side (lines 13-71) and whose input-side
    total, the [vpub_new] amounts plus a non-negative balance delta,
    exceeds [MAX_MONEY]. *)
Theorem input_total_verdict (tx : CTransaction) :
  result (CheckTransaction tx) = Invalid "bad-txns-txintotal-toolarge" <->
  shape_ok tx /\ vout_ok tx /\ delta_ok tx /\
  Forall joinsplit_ok (vJoinSplit tx) /\
  out_total tx <= MAX_MONEY /\ MAX_MONEY < in_total tx.
Proof.
  pose proof (zero_in_money_range Hamount) as H0.
  pose proof (negative_part_nonneg (valueBalance tx)) as Hneg.
  pose proof (positive_part_nonneg (valueBalance tx)) as Hpos.
  rewrite CheckTransaction_from_4_4.
  rewrite (bind_Invalid_right (basic_codes ++ vout_codes ++ valueBalance_codes));
    [ | apply passes_4_1_to_4_3_codes | code_notin ].
  unfold from_4_4, out_total, in_total. split.
  - intros (v & H3 & H).
    apply (passes_4_1_to_4_3_Done Hamount) in H3 as (Hb & Hok & Hd & ->).
    pose proof (vout_ok_sum_nonneg tx Hok) as Hnn.
    rewrite (bind_Invalid_right joinsplit_codes) in H;
      [ | apply joinsplit_loop_codes | code_notin ].
    destruct H as (v3 & Hv3 & H).
    apply (joinsplit_loop_Done_iff Hamount) in Hv3 as (Hjs & -> & Hr3);
      [| destruct Hd as (_ & _ & ?); unfold in_money_range; lia ].
    split; [exact Hb|]. split; [exact Hok|]. split; [exact Hd|].
    split; [exact Hjs|]. split; [unfold in_money_range in Hr3; lia|].
    assert (Hnew : Forall (fun it => in_money_range (vpub_new it)) (vJoinSplit tx)).
    { eapply Forall_impl; [exact Hjs|]. intros js (_ & Hn & _). exact Hn. }
    destruct (Z_lt_le_dec MAX_MONEY (sum_amounts vpub_new (vJoinSplit tx)))
      as [Hi|Hi]; [lia|].
    assert (Hs3 : 0 <= sum_amounts vpub_new (vJoinSplit tx)).
    { apply sum_amounts_nonneg. eapply Forall_impl; [exact Hnew|].
      intros js Hn. unfold in_money_range in Hn. lia. }
    assert (H4 : result (for_each valuein_body 0 (vJoinSplit tx))
                 = Done (0 + sum_amounts vpub_new (vJoinSplit tx))).
    { apply (valuein_loop_Done_iff Hamount); [exact H0|]. split; [exact Hnew|].
      split; [reflexivity | unfold in_money_range; lia]. }
    rewrite result_bind, H4 in H.
    rewrite (bind_Invalid_left codes_from_4_5) in H;
      [ | intros; apply from_4_5_codes | code_notin ].
    apply check_valueIn_sapling_Invalid in H;
      [ lia | unfold in_money_range; lia | destruct Hd as (_ & ? & _); assumption ].
  - intros (Hb & Hok & Hd & Hjs & Hout & Hin).
    pose proof (vout_ok_sum_nonneg tx Hok) as Hnn.
    eexists. split.
    { apply (passes_4_1_to_4_3_Done Hamount). split; [exact Hb|].
      split; [exact Hok|]. split; [exact Hd | reflexivity]. }
    assert (Hs2 : 0 <= sum_amounts vpub_old (vJoinSplit tx)).
    { apply sum_amounts_nonneg. eapply Forall_impl; [exact Hjs|].
      intros js (Ho & _). unfold in_money_range in Ho. lia. }
    assert (Hnew : Forall (fun it => in_money_range (vpub_new it)) (vJoinSplit tx)).
    { eapply Forall_impl; [exact Hjs|]. intros js (_ & Hn & _). exact Hn. }
    assert (Hs3 : 0 <= sum_amounts vpub_new (vJoinSplit tx)).
    { apply sum_amounts_nonneg. eapply Forall_impl; [exact Hnew|].
      intros js Hn. unfold in_money_range in Hn. lia. }
    set (v := sum_amounts nValue (vout tx)
              + (if valueBalance tx <=? 0 then - valueBalance tx else 0)) in *.
    assert (Hv : in_money_range v)
      by (destruct Hd as (_ & _ & ?); unfold in_money_range; lia).
    assert (H3 : result (for_each joinsplit_body v (vJoinSplit tx))
                 = Done (v + sum_amounts vpub_old (vJoinSplit tx))).
    { apply (joinsplit_loop_Done_iff Hamount); [exact Hv|]. split; [exact Hjs|].
      split; [reflexivity|]. unfold in_money_range in *. lia. }
    rewrite result_bind, H3, result_bind.
    destruct (Z_lt_le_dec MAX_MONEY (sum_amounts vpub_new (vJoinSplit tx)))
      as [Hi|Hi].
    { rewrite valuein_loop_overflow; [reflexivity | exact H0 | exact Hnew | lia]. }
    assert (H4 : result (for_each valuein_body 0 (vJoinSplit tx))
                 = Done (0 + sum_amounts vpub_new (vJoinSplit tx))).
    { apply (valuein_loop_Done_iff Hamount); [exact H0|]. split; [exact Hnew|].
      split; [reflexivity | unfold in_money_range; lia]. }
    rewrite H4.
    rewrite (bind_Invalid_left codes_from_4_5);
      [ | intros; apply from_4_5_codes | code_notin ].
    apply check_valueIn_sapling_Invalid;
      [ unfold in_money_range; lia | destruct Hd as (_ & ? & _); assumption | lia ].
Qed.

(** X9. The first transparent output out of range decides the verdict: on a
    transaction that passes lines 13-19, with every earlier output in range
    and their sum at most [MAX_MONEY], a negative amount gives
    "bad-txns-vout-negative" and an amount above [MAX_MONEY] gives
    "bad-txns-vout-toolarge". *)
Theorem first_bad_output_verdict
        (tx : CTransaction) (before after : list CTxOut) (txout : CTxOut) :
  shape_ok tx ->
  vout tx = before ++ txout :: after ->
  Forall (fun o => in_money_range (nValue o)) before ->
  sum_amounts nValue before <= MAX_MONEY ->
  (nValue txout < 0 ->
   result (CheckTransaction tx) = Invalid "bad-txns-vout-negative") /\
  (MAX_MONEY < nValue txout ->
   result (CheckTransaction tx) = Invalid "bad-txns-vout-toolarge").
Proof.
  intros Hb Hvout Hbefore Hsum.
  pose proof (zero_in_money_range Hamount) as H0.
  assert (Hm : 0 <= MAX_MONEY) by (unfold MAX_MONEY_is_amount in *; lia).
  assert (Hnn : 0 <= sum_amounts nValue before).
  { apply sum_amounts_nonneg. eapply Forall_impl; [exact Hbefore|].
    intros o Ho. unfold in_money_range in Ho. lia. }
  assert (H1 : result (for_each vout_body 0 before)
               = Done (0 + sum_amounts nValue before)).
  { apply (vout_loop_Done_iff Hamount); [exact H0|]. split; [exact Hbefore|].
    split; [reflexivity | unfold in_money_range; lia]. }
  apply check_basic_Valid in Hb.
  rewrite CheckTransaction_after_basic, result_bind, Hb.
  rewrite result_bind, Hvout, for_each_app, result_bind, H1. simpl.
  rewrite result_bind. unfold vout_body.
  split; intros Hbad.
  - destruct (nValue txout <? 0) eqn:E; [reflexivity | lia].
  - destruct (nValue txout <? 0) eqn:E; [lia|].
    destruct (nValue txout >? MAX_MONEY) eqn:E'; [reflexivity | lia].
Qed.

(** X10. The first join-split description that fails a per-amount test
    decides the verdict, and the four tests are applied in the order
    [vpub_old] negative, [vpub_new] negative, [vpub_old] too large,
    [vpub_new] too large: on a transaction that passes lines 13-48, with
    every earlier description passing lines 53-70. *)
Theorem first_bad_joinsplit_verdict
        (tx : CTransaction) (before after : list JSDescription)
        (js : JSDescription) :
  shape_ok tx -> vout_ok tx -> delta_ok tx ->
  vJoinSplit tx = before ++ js :: after ->
  Forall joinsplit_ok before ->
  sum_amounts nValue (vout tx)
  + (if valueBalance tx <=? 0 then - valueBalance tx else 0)
  + sum_amounts vpub_old before <= MAX_MONEY ->
  (vpub_old js < 0 ->
   result (CheckTransaction tx) = Invalid "bad-txns-vpub_old-negative") /\
  (0 <= vpub_old js -> vpub_new js < 0 ->
   result (CheckTransaction tx) = Invalid "bad-txns-vpub_new-negative") /\
  (0 <= vpub_new js -> MAX_MONEY < vpub_old js ->
   result (CheckTransaction tx) = Invalid "bad-txns-vpub_old-toolarge") /\
  (0 <= vpub_old js <= MAX_MONEY -> MAX_MONEY < vpub_new js ->
   result (CheckTransaction tx) = Invalid "bad-txns-vpub_new-toolarge").
Proof.
  intros Hb Hok Hd Hjs Hbefore Hsum.
  pose proof (vout_ok_sum_nonneg tx Hok) as Hnn.
  pose proof (negative_part_nonneg (valueBalance tx)) as Hneg.
  assert (Hm : 0 <= MAX_MONEY) by (unfold MAX_MONEY_is_amount in *; lia).
  assert (Hs2 : 0 <= sum_amounts vpub_old before).
  { apply sum_amounts_nonneg. eapply Forall_impl; [exact Hbefore|].
    intros js' (Ho & _). unfold in_money_range in Ho. lia. }
  set (v := sum_amounts nValue (vout tx)
            + (if valueBalance tx <=? 0 then - valueBalance tx else 0)) in *.
  assert (H3 : result (passes_4_1_to_4_3 tx) = Done v).
  { apply (passes_4_1_to_4_3_Done Hamount). auto. }
  assert (H4 : result (for_each joinsplit_body v before)
               = Done (v + sum_amounts vpub_old before)).
  { apply (joinsplit_loop_Done_iff Hamount).
    - unfold in_money_range. lia.
    - split; [exact Hbefore|]. split; [reflexivity|].
      unfold in_money_range. lia. }
  rewrite CheckTransaction_from_4_4, result_bind, H3.
  unfold from_4_4. rewrite result_bind, Hjs, for_each_app, result_bind, H4.
  simpl. rewrite result_bind. unfold joinsplit_body.
  repeat split; intros; repeat
    match goal with
    | |- context [if ?b then reject _ else _] =>
        let E := fresh "E" in destruct b eqn:E; try reflexivity; try lia
    end.
Qed.

End TotalVerdicts.

(** * Properties of the nonce search of [MineBlock] *)

Lemma to_int_mod_2_16 (z : Z) : to_int z mod 2 ^ 16 = z mod 2 ^ 16.
Proof.
  unfold to_int.
  rewrite (Z.mod_eq (z + 2 ^ 31) (2 ^ 32)) by lia.
  replace (z + 2 ^ 31 - 2 ^ 32 * ((z + 2 ^ 31) / 2 ^ 32) - 2 ^ 31)
    with (z + (- (2 ^ 16 * ((z + 2 ^ 31) / 2 ^ 32))) * 2 ^ 16) by lia.
  apply Z.mod_add. lia.
Qed.

Section MiningTheorems.
Context {miner : MinerExternals}.

Lemma inner_loop_position_mod (nonce : uint256) :
  inner_loop_position nonce = GetUint64_0 nonce mod 2 ^ 16.
Proof.
  unfold inner_loop_position, nInnerLoopMask.
  change 65535 with (Z.ones 16). rewrite Z.land_ones by lia.
  apply to_int_mod_2_16.
Qed.

Lemma inner_loop_position_range (nonce : uint256) :
  0 <= inner_loop_position nonce <= nInnerLoopCount.
Proof.
  rewrite inner_loop_position_mod. unfold nInnerLoopCount.
  pose proof (Z.mod_pos_bound (GetUint64_0 nonce) (2 ^ 16) ltac:(lia)). lia.
Qed.

(** X11. The loop condition of [MineBlock] reads the low 16 bits of the
    nonce and nothing else: the conversion of the low 64-bit word to [int]
    followed by the mask [0xFFFF] is the word modulo [2^16]. *)
Theorem inner_loop_position_low_bits (nonce : uint256) :
  inner_loop_position nonce = GetUint64_0 nonce mod 2 ^ 16 /\
  0 <= inner_loop_position nonce <= nInnerLoopCount.
Proof.
  split.
  - unfold inner_loop_position, nInnerLoopMask.
    change 65535 with (Z.ones 16). rewrite Z.land_ones by lia.
    unfold to_int.
    rewrite (Z.mod_eq (GetUint64_0 nonce + 2 ^ 31) (2 ^ 32)) by lia.
    replace (GetUint64_0 nonce + 2 ^ 31
             - 2 ^ 32 * ((GetUint64_0 nonce + 2 ^ 31) / 2 ^ 32) - 2 ^ 31)
      with (GetUint64_0 nonce
            + (- (2 ^ 16 * ((GetUint64_0 nonce + 2 ^ 31) / 2 ^ 32))) * 2 ^ 16)
      by lia.
    apply Z.mod_add. lia.
  - unfold inner_loop_position, nInnerLoopMask.
    change 65535 with (Z.ones 16). rewrite Z.land_ones by lia.
    unfold nInnerLoopCount.
    pose proof (Z.mod_pos_bound (to_int (GetUint64_0 nonce)) (2 ^ 16) ltac:(lia)).
    lia.
Qed.

Lemma position_increment (nonce : uint256) :
  nonce_laws ->
  inner_loop_position nonce < nInnerLoopCount ->
  GetUint64_0 (nonce_increment nonce) = GetUint64_0 nonce + 1 /\
  inner_loop_position (nonce_increment nonce) = inner_loop_position nonce + 1.
Proof.
  intros [Hrange Hinc] Hpos.
  pose proof (inner_loop_position_mod nonce) as Hlow.
  pose proof (inner_loop_position_mod (nonce_increment nonce)) as Hlow'.
  rewrite Hlow in Hpos. rewrite Hlow, Hlow'. unfold nInnerLoopCount in Hpos.
  specialize (Hrange nonce). specialize (Hinc nonce).
  pose proof (Z.div_mod (GetUint64_0 nonce) (2 ^ 16) ltac:(lia)) as Hdm.
  pose proof (Z.mod_pos_bound (GetUint64_0 nonce) (2 ^ 16) ltac:(lia)) as Hb.
  assert (Hq : GetUint64_0 nonce / 2 ^ 16 < 2 ^ 48).
  { apply Z.div_lt_upper_bound; lia. }
  assert (Hsmall : GetUint64_0 nonce + 1 < 2 ^ 64) by lia.
  rewrite Z.mod_small in Hinc by lia.
  split; [exact Hinc|]. rewrite Hinc.
  replace (GetUint64_0 nonce + 1)
    with (GetUint64_0 nonce mod 2 ^ 16 + 1 + (GetUint64_0 nonce / 2 ^ 16) * 2 ^ 16)
    by lia.
  rewrite Z.mod_add by lia. apply Z.mod_small. lia.
Qed.

Lemma mine_loop_trace (tries : nat) : forall nonce solution,
  let r := mine_loop tries nonce solution in
  solver_calls r = successors (length (solver_calls r)) nonce /\
  (length (solver_calls r) + nMaxTries_left r = tries)%nat.
Proof.
  induction tries as [|tries IH]; intros nonce solution; simpl.
  - split; reflexivity.
  - destruct (inner_loop_position nonce <? nInnerLoopCount); [|split; reflexivity].
    destruct (EhBasicSolveUncancellable (nonce_increment nonce)) as [ok stored].
    destruct ok; simpl; [split; reflexivity|].
    destruct (IH (nonce_increment nonce) (default solution stored))
      as (Hcalls & Hlen).
    split; [f_equal; exact Hcalls | lia].
Qed.

(** X12. The search stays inside one window of [2^16] nonces.  Every
    solver run is on the next nonce; the low word of the nonce grows by one
    per run without wrapping, so the bits above the low 16 never change
    and there are at most [0xFFFF] minus the starting position runs.  With
    more tries than that, as with the [1000000] of the source, the tries
    are never used up. *)
Theorem mine_loop_window (tries : nat) (nonce : uint256) (solution : list byte) :
  nonce_laws ->
  let r := mine_loop tries nonce solution in
  solver_calls r = successors (length (solver_calls r)) nonce /\
  GetUint64_0 (nNonce r) = GetUint64_0 nonce + Z.of_nat (length (solver_calls r)) /\
  GetUint64_0 (nNonce r) / 2 ^ 16 = GetUint64_0 nonce / 2 ^ 16 /\
  Z.of_nat (length (solver_calls r)) <= nInnerLoopCount - inner_loop_position nonce /\
  (nInnerLoopCount - inner_loop_position nonce < Z.of_nat tries ->
   (0 < nMaxTries_left r)%nat).
Proof.
  intros Hlaws r.
  assert (Hmain : forall tries nonce solution,
    let r := mine_loop tries nonce solution in
    GetUint64_0 (nNonce r)
    = GetUint64_0 nonce + Z.of_nat (length (solver_calls r)) /\
    inner_loop_position (nNonce r)
    = inner_loop_position nonce + Z.of_nat (length (solver_calls r))).
  { clear r tries nonce solution. intros tries.
    induction tries as [|tries IH]; intros nonce solution; simpl.
    - split; lia.
    - destruct (inner_loop_position nonce <? nInnerLoopCount) eqn:E;
        [|simpl; split; lia].
      apply Z.ltb_lt in E.
      destruct (position_increment nonce Hlaws E) as [Hw Hp].
      destruct (EhBasicSolveUncancellable (nonce_increment nonce)) as [ok stored].
      destruct ok; simpl; [split; lia|].
      destruct (IH (nonce_increment nonce) (default solution stored)) as [Hw' Hp'].
      split; lia. }
  destruct (Hmain tries nonce solution) as [Hw Hp]. fold r in Hw, Hp.
  destruct (mine_loop_trace tries nonce solution) as (Hcalls & Hlen).
  fold r in Hcalls, Hlen.
  pose proof (inner_loop_position_mod (nNonce r)) as Hlow'.
  pose proof (inner_loop_position_range (nNonce r)) as Hb'.
  pose proof (inner_loop_position_mod nonce) as Hlow.
  pose proof (inner_loop_position_range nonce) as Hb.
  assert (Hcount : Z.of_nat (length (solver_calls r))
                   <= nInnerLoopCount - inner_loop_position nonce) by lia.
  split; [exact Hcalls|]. split; [exact Hw|]. split; [|split; [exact Hcount|lia]].
  rewrite Hw.
  pose proof (Z.div_mod (GetUint64_0 nonce) (2 ^ 16) ltac:(lia)) as Hdm.
  rewrite <- Hlow in Hdm. unfold nInnerLoopCount in *.
  replace (GetUint64_0 nonce + Z.of_nat (length (solver_calls r)))
    with (inner_loop_position nonce + Z.of_nat (length (solver_calls r))
          + (GetUint64_0 nonce / 2 ^ 16) * 2 ^ 16) by lia.
  rewrite Z.div_add by lia. rewrite Z.div_small by lia. lia.
Qed.

(** X13. How the search ends.  If it ends with a solution, the solver
    succeeded on the nonce the block is left with, which is the last one
    tried, and failed on every nonce tried before it.  If it ends without,
    the solver failed on every nonce tried, and either the tries are used
    up or the nonce is at the last position of its window. *)
Theorem mine_loop_outcome (tries : nat) (nonce : uint256) (solution : list byte) :
  let r := mine_loop tries nonce solution in
  (found r = true ->
   exists earlier,
     solver_calls r = earlier ++ [nNonce r] /\
     (EhBasicSolveUncancellable (nNonce r)).1 = true /\
     Forall (fun c => (EhBasicSolveUncancellable c).1 = false) earlier) /\
  (found r = false ->
   Forall (fun c => (EhBasicSolveUncancellable c).1 = false) (solver_calls r) /\
   (nMaxTries_left r = O \/ nInnerLoopCount <= inner_loop_position (nNonce r))).
Proof.
  revert nonce solution.
  induction tries as [|tries IH]; intros nonce solution; simpl.
  - split; [discriminate|]. intros _. split; [constructor | left; reflexivity].
  - destruct (inner_loop_position nonce <? nInnerLoopCount) eqn:E; simpl.
    2:{ split; [discriminate|]. intros _. split; [constructor|].
        right. apply Z.ltb_ge in E. exact E. }
    destruct (EhBasicSolveUncancellable (nonce_increment nonce))
      as [ok stored] eqn:Esolve.
    destruct ok; simpl.
    + split; [|discriminate]. intros _. exists []. simpl.
      split; [reflexivity|]. split; [rewrite Esolve; reflexivity | constructor].
    + destruct (IH (nonce_increment nonce) (default solution stored))
        as [Hfound Hnot].
      split.
      * intros Hf. destruct (Hfound Hf) as (earlier & Hcalls & Hok & Hall).
        exists (nonce_increment nonce :: earlier). split.
        { simpl. f_equal. exact Hcalls. }
        split; [exact Hok|]. constructor; [rewrite Esolve; reflexivity | exact Hall].
      * intros Hf. destruct (Hnot Hf) as [Hall Hend].
        split; [|exact Hend].
        constructor; [rewrite Esolve; reflexivity | exact Hall].
Qed.

End MiningTheorems.

(** * Properties of the parameter-file functions *)

(** ** The digest as text *)

Lemma hex_byte_unhex (b : byte) :
  unhex_digit (hex_digit (Byte.to_N b / 16)) = Some (Byte.to_N b / 16)%N /\
  unhex_digit (hex_digit (Byte.to_N b mod 16)) = Some (Byte.to_N b mod 16)%N /\
  Byte.of_N (16 * (Byte.to_N b / 16) + Byte.to_N b mod 16) = Some b.
Proof. destruct b; vm_compute; repeat split. Qed.

Lemma hex_digit_lower (d : N) : (d < 16)%N -> lower_hex (hex_digit d).
Proof.
  intros Hd. unfold lower_hex, hex_digit. apply nth_In.
  change (length (String.list_ascii_of_string "0123456789abcdef")) with 16%nat.
  lia.
Qed.

Lemma hex_byte_lower (b : byte) : Forall lower_hex (hex_byte b).
Proof.
  pose proof (Byte.to_N_bounded b) as Hb. unfold hex_byte.
  constructor; [|constructor; [|constructor]]; apply hex_digit_lower.
  - apply N.Div0.div_lt_upper_bound. lia.
  - apply N.mod_lt. lia.
Qed.

Lemma unhex_hex_bytes (bs : list byte) :
  unhex (concat (map hex_byte bs)) = Some bs.
Proof.
  induction bs as [|b bs IH]; [reflexivity|].
  destruct (hex_byte_unhex b) as (Hhi & Hlo & Hb).
  change (concat (map hex_byte (b :: bs)))
    with (hex_digit (Byte.to_N b / 16) :: hex_digit (Byte.to_N b mod 16)
          :: concat (map hex_byte bs)).
  cbn [unhex]. rewrite Hhi, Hlo, IH, Hb. reflexivity.
Qed.

Lemma length_hex_bytes (bs : list byte) :
  length (concat (map hex_byte bs)) = (2 * length bs)%nat.
Proof.
  induction bs as [|b bs IH]; [reflexivity|].
  change (concat (map hex_byte (b :: bs)))
    with (hex_digit (Byte.to_N b / 16) :: hex_digit (Byte.to_N b mod 16)
          :: concat (map hex_byte bs)).
  simpl length. rewrite IH. lia.
Qed.

Section DigestText.
Context {fx : FetchExternals}.

Lemma hex_chars_map (hash : list byte) :
  hex_chars hash =
  concat (map hex_byte (map (fun i => nth i hash x00) (seq 0 crypto_hash_sha256_BYTES))).
Proof. unfold hex_chars. rewrite map_map. reflexivity. Qed.

Lemma hex_chars_shape (hash : list byte) :
  length (hex_chars hash) = (2 * crypto_hash_sha256_BYTES)%nat /\
  Forall lower_hex (hex_chars hash).
Proof.
  split.
  - rewrite hex_chars_map, length_hex_bytes, length_map, length_seq. reflexivity.
  - rewrite hex_chars_map. apply Forall_concat, Forall_map.
    apply Forall_forall. intros b _. apply hex_byte_lower.
Qed.

(** X14. The text lines 65-67 make of a digest has two characters per byte
    of the digest buffer, all of them lower-case hexadecimal digits, and
    decodes back to the bytes of the buffer: two digests that differ never
    give the same text. *)
Theorem hex_digest_roundtrip (hash : list byte) :
  length (hex_chars hash) = (2 * crypto_hash_sha256_BYTES)%nat /\
  Forall lower_hex (hex_chars hash) /\
  unhex (String.list_ascii_of_string (hex_digest hash))
  = Some (map (fun i => nth i hash x00) (seq 0 crypto_hash_sha256_BYTES)).
Proof.
  split; [|split].
  - rewrite hex_chars_map, length_hex_bytes, length_map, length_seq. reflexivity.
  - rewrite hex_chars_map. apply Forall_concat, Forall_map.
    apply Forall_forall. intros b _. apply hex_byte_lower.
  - unfold hex_digest. rewrite String.list_ascii_of_string_of_list_ascii.
    rewrite hex_chars_map. apply unhex_hex_bytes.
Qed.

End DigestText.

(** ** Progress reports *)

Lemma clamp_percentage_range (ratio : Z) : 1 <= clamp_percentage ratio <= 99.
Proof. unfold clamp_percentage. lia. Qed.

Lemma decile_range (p : Z) : 1 <= p <= 99 -> 0 <= decile p <= 9.
Proof.
  intros Hp. unfold decile. rewrite Z.quot_div_nonneg by lia.
  split; [apply Z.div_pos; lia|].
  assert (p / 10 < 10) by (apply Z.div_lt_upper_bound; lia). lia.
Qed.

Lemma StronglySorted_lt_app (l1 l2 : list Z) (bound : Z) :
  StronglySorted Z.lt l1 -> StronglySorted Z.lt l2 ->
  Forall (fun x => x <= bound) l1 -> Forall (fun y => bound < y) l2 ->
  StronglySorted Z.lt (l1 ++ l2).
Proof.
  intros H1 H2 Hle Hgt. induction H1 as [|x l1 Hs IH Hall]; simpl; [exact H2|].
  apply Forall_cons in Hle as [Hx Hle].
  constructor; [apply IH, Hle|].
  apply Forall_app. split; [exact Hall|].
  eapply Forall_impl; [exact Hgt|]. simpl. intros y Hy. lia.
Qed.

Lemma progress_summary_nil (rd : Z) : rd <= 9 -> progress_summary rd rd [].
Proof.
  intros H. unfold progress_summary; simpl.
  repeat split; try constructor; lia.
Qed.

Lemma progress_summary_app (rd0 rd1 rd2 : Z) (evs1 evs2 : list FetchEvent) :
  progress_summary rd0 rd1 evs1 -> progress_summary rd1 rd2 evs2 ->
  progress_summary rd0 rd2 (evs1 ++ evs2).
Proof.
  intros (Hr1 & He1 & Hs1 & Hn1 & Hd1 & Ho1) (Hr2 & He2 & Hs2 & Hn2 & Hd2 & Ho2).
  unfold progress_summary, logged_percentages, shown_progress in *.
  rewrite !omap_app, length_app, map_app.
  split; [lia|]. split; [apply Forall_app; auto|].
  split; [apply Forall_app; auto|]. split; [lia|]. split.
  - apply Forall_app. split.
    + eapply Forall_impl; [exact Hd1|]. simpl. intros p Hp. lia.
    + eapply Forall_impl; [exact Hd2|]. simpl. intros p Hp. lia.
  - apply (StronglySorted_lt_app _ _ rd1); [exact Ho1 | exact Ho2 | |].
    + apply Forall_map. eapply Forall_impl; [exact Hd1|]. simpl. intros p Hp. lia.
    + apply Forall_map. eapply Forall_impl; [exact Hd2|]. simpl. intros p Hp. lia.
Qed.

Lemma report_progress_summary (title : string) (rd p : Z) :
  rd <= 9 -> 1 <= p <= 99 ->
  progress_summary rd (report_progress title rd p).1 (report_progress title rd p).2.
Proof.
  intros Hrd Hp. pose proof (decile_range p Hp) as Hd. unfold decile in Hd.
  unfold report_progress, progress_summary.
  destruct (rd <? p ÷ 10) eqn:E; simpl.
  - apply Z.ltb_lt in E. unfold decile. split; [lia|].
    split; [repeat constructor|]. split; [repeat constructor; lia|].
    split; [lia|]. split; [repeat constructor; lia|].
    repeat constructor.
  - split; [lia|]. split; [repeat constructor|].
    split; [repeat constructor; lia|]. split; [lia|].
    split; constructor.
Qed.

Section ProgressTheorems.
Context {fx : FetchExternals}.

Lemma verify_loop_summary title reads : forall st soFar totalBytes rd,
  rd <= 9 ->
  progress_summary rd (verify_loop title reads st soFar totalBytes rd).1.2
                   (verify_loop title reads st soFar totalBytes rd).2.
Proof.
  induction reads as [|buffer rest IH]; intros st soFar totalBytes rd Hrd; simpl.
  - apply progress_summary_nil, Hrd.
  - destruct (Z.of_nat (length buffer) =? 0); simpl;
      [apply progress_summary_nil, Hrd|].
    set (p := clamp_percentage
                (percent_of (add_int soFar (Z.of_nat (length buffer))) totalBytes)).
    pose proof (report_progress_summary title rd p Hrd (clamp_percentage_range _))
      as Hstep.
    destruct (report_progress title rd p) as [rd1 report]. simpl in Hstep.
    assert (Hrd1 : rd1 <= 9) by (destruct Hstep as ((_ & ?) & _); lia).
    specialize (IH (crypto_hash_sha256_update st buffer)
                   (add_int soFar (Z.of_nat (length buffer))) totalBytes rd1 Hrd1).
    destruct (verify_loop title rest _ _ totalBytes rd1) as [[st' rd2] later].
    simpl in *.
    apply (progress_summary_app rd rd rd2 [EvInterruptionPoint; EvSha256Update buffer]).
    + unfold progress_summary; simpl.
      repeat split; try constructor; try lia; repeat constructor.
    + apply (progress_summary_app rd rd1 rd2); assumption.
Qed.

Lemma verify_loop_hashes title reads : forall st soFar totalBytes rd,
  ((verify_loop title reads st soFar totalBytes rd).1.1
   = fold_left crypto_hash_sha256_update (reads_before_eof reads) st) /\
  (hashed_buffers (verify_loop title reads st soFar totalBytes rd).2
   = reads_before_eof reads) /\
  (length (shown_progress (verify_loop title reads st soFar totalBytes rd).2)
   = length (reads_before_eof reads)).
Proof.
  induction reads as [|buffer rest IH]; intros st soFar totalBytes rd; simpl.
  - repeat split.
  - destruct (Z.of_nat (length buffer) =? 0); simpl; [repeat split|].
    set (p := clamp_percentage
                (percent_of (add_int soFar (Z.of_nat (length buffer))) totalBytes)).
    assert (Hrep : hashed_buffers (report_progress title rd p).2 = [] /\
                   length (shown_progress (report_progress title rd p).2) = 1%nat).
    { unfold report_progress. destruct (rd <? p ÷ 10); simpl; split; reflexivity. }
    destruct (report_progress title rd p) as [rd1 report]. simpl in Hrep.
    specialize (IH (crypto_hash_sha256_update st buffer)
                   (add_int soFar (Z.of_nat (length buffer))) totalBytes rd1).
    destruct (verify_loop title rest _ _ totalBytes rd1) as [[st' rd2] later].
    simpl in *. destruct IH as (Hst & Hbuf & Hshown). destruct Hrep as [Hb Hs].
    unfold hashed_buffers, shown_progress in *.
    rewrite !omap_app, length_app, Hb, Hbuf, Hs, Hshown.
    split; [exact Hst|]. split; reflexivity.
Qed.

End ProgressTheorems.

(** ** [VerifyParams], [xferinfo] and [FetchParams] *)

Section FetchTheorems.
Context {fx : FetchExternals}.

Lemma progress_events_no (e : FetchEvent) (evs : list FetchEvent) :
  Forall progress_event evs -> ~ progress_event e -> ~ In e evs.
Proof.
  intros Hall Hne Hin. rewrite Forall_forall in Hall.
  apply Hne, Hall, list_elem_of_In, Hin.
Qed.

(** The digest [VerifyParams] computes for a file. *)
Lemma VerifyParams_Some filename reads size sha256expected :
  let hash :=
    crypto_hash_sha256_final
      (fold_left crypto_hash_sha256_update (reads_before_eof reads)
                 crypto_hash_sha256_init) in
  let r := VerifyParams filename (Some reads) (Some size) sha256expected in
  exists loop_events,
    progress_summary 0 (reportDone_after r) loop_events /\
    hashed_buffers loop_events = reads_before_eof reads /\
    length (shown_progress loop_events) = length (reads_before_eof reads) /\
    (sha256expected = hex_digest hash ->
     outcome r = Returned true /\
     events r = [EvLog LogVerifying; EvLog LogStart] ++ loop_events
                ++ [EvLog LogDone; EvFclose]) /\
    (sha256expected <> hex_digest hash ->
     outcome r = Returned false /\
     events r = ([EvLog LogVerifying; EvLog LogStart] ++ loop_events
                 ++ [EvLog LogDone; EvFclose])
                ++ [EvRemove; EvLog (LogChecksumMismatch (hex_digest hash))]).
Proof.
  intros hash r. subst hash r. unfold VerifyParams.
  pose proof (verify_loop_hashes ("Verifying " ++ filename) reads
                crypto_hash_sha256_init 0 (to_int size) 0) as (Hst & Hbuf & Hshown).
  pose proof (verify_loop_summary ("Verifying " ++ filename) reads
                crypto_hash_sha256_init 0 (to_int size) 0 ltac:(lia)) as Hsum.
  destruct (verify_loop _ reads _ 0 (to_int size) 0) as [[st rd] loop_events].
  simpl in Hst, Hbuf, Hshown, Hsum. subst st. exists loop_events.
  assert (Hrd : forall b : bool,
    reportDone_after
      (if b
       then mkRun (Returned false) rd
              (([EvLog LogVerifying; EvLog LogStart] ++ loop_events
                ++ [EvLog LogDone; EvFclose])
               ++ [EvRemove;
                   EvLog (LogChecksumMismatch
                            (hex_digest
                               (crypto_hash_sha256_final
                                  (fold_left crypto_hash_sha256_update
                                     (reads_before_eof reads)
                                     crypto_hash_sha256_init))))])
       else mkRun (Returned true) rd
              ([EvLog LogVerifying; EvLog LogStart] ++ loop_events
               ++ [EvLog LogDone; EvFclose])) = rd)
    by (intros []; reflexivity).
  rewrite Hrd.
  split; [exact Hsum|]. split; [exact Hbuf|]. split; [exact Hshown|]. split.
  - intros ->. rewrite String.eqb_refl. simpl. split; reflexivity.
  - intros Hne. apply String.eqb_neq in Hne. rewrite Hne. simpl.
    split; reflexivity.
Qed.




Lemma summary_of_wrapped (rd : Z) (pre post evs : list FetchEvent) :
  progress_summary 0 rd evs ->
  logged_percentages pre = [] -> shown_progress pre = [] ->
  logged_percentages post = [] -> shown_progress post = [] ->
  Forall (fun p => 1 <= p <= 99) (shown_progress (pre ++ evs ++ post)) /\
  (length (logged_percentages (pre ++ evs ++ post)) <= 9)%nat /\
  Z.of_nat (length (logged_percentages (pre ++ evs ++ post))) <= rd /\
  StronglySorted Z.lt (map decile (logged_percentages (pre ++ evs ++ post))) /\
  0 <= rd <= 9.
Proof.
  intros (Hr & _ & Hs & Hn & _ & Ho) Hl1 Hs1 Hl2 Hs2.
  unfold logged_percentages, shown_progress in *.
  rewrite !omap_app, Hl1, Hs1, Hl2, Hs2, !app_nil_r. simpl.
  split; [exact Hs|]. split; [lia|]. split; [lia|]. split; [exact Ho | lia].
Qed.


Lemma xferinfo_summary filename rd dltotal dlnow :
  rd <= 9 ->
  (xferinfo filename rd dltotal dlnow).1.1 = 0 /\
  progress_summary rd (xferinfo filename rd dltotal dlnow).1.2
                   (xferinfo filename rd dltotal dlnow).2.
Proof.
  intros Hrd. unfold xferinfo. destruct (0 <? dlnow).
  - set (p := clamp_percentage (percent_of dlnow dltotal)).
    pose proof (report_progress_summary ("Downloading " ++ filename) rd p Hrd
                  (clamp_percentage_range _)) as Hstep.
    destruct (report_progress ("Downloading " ++ filename) rd p) as [rd1 report].
    simpl in *. split; [reflexivity|].
    apply (progress_summary_app rd rd rd1 [EvInterruptionPoint]); [|exact Hstep].
    unfold progress_summary; simpl.
    repeat split; try constructor; try lia; repeat constructor.
  - simpl. split; [reflexivity|]. unfold progress_summary; simpl.
    repeat split; try constructor; try lia; repeat constructor.
Qed.

Lemma transfer_callbacks_summary filename calls : forall rd,
  rd <= 9 ->
  progress_summary rd (transfer_callbacks filename calls rd).1
                   (transfer_callbacks filename calls rd).2.
Proof.
  induction calls as [|[dltotal dlnow] rest IH]; intros rd Hrd; simpl.
  - apply progress_summary_nil, Hrd.
  - destruct (xferinfo_summary filename rd dltotal dlnow Hrd) as [Hret Hstep].
    destruct (xferinfo filename rd dltotal dlnow) as [[ret rd1] evs].
    simpl in Hret, Hstep. subst ret. simpl.
    assert (Hrd1 : rd1 <= 9) by (destruct Hstep as ((_ & ?) & _); lia).
    specialize (IH rd1 Hrd1).
    destruct (transfer_callbacks filename rest rd1) as [rd2 later]. simpl in *.
    apply (progress_summary_app rd rd1 rd2); assumption.
Qed.



End FetchTheorems.

(** * The further properties at example inputs *)

Section MoreExamples.
#[local] Existing Instance sample_externals.

Lemma tx_shape_ok_sample (tx : CTransaction) :
  vin tx <> [] -> vout tx <> [] ->
  (GetSerializeSize tx * WITNESS_SCALE_FACTOR) mod 2 ^ 64 <= MAX_BLOCK_WEIGHT ->
  shape_ok tx.
Proof.
  intros Hin Hout Hsize. split; [intros (E & _); contradiction|].
  split; [intros (E & _); contradiction | exact Hsize].
Defined.


Lemma valueBalance_verdicts_witness :
  MAX_MONEY_is_amount /\
  result (CheckTransaction tx_delta_no_sapling)
  = Invalid "bad-txns-valuebalance-nonzero" /\
  shape_ok tx_delta_no_sapling /\ vout_ok tx_delta_no_sapling /\
  vShieldedSpend tx_delta_no_sapling = [] /\
  vShieldedOutput tx_delta_no_sapling = [] /\
  valueBalance tx_delta_no_sapling <> 0.
Proof.
  assert (Hr : result (CheckTransaction tx_delta_no_sapling)
               = Invalid "bad-txns-valuebalance-nonzero")
    by (vm_compute; reflexivity).
  split; [exact sample_MAX_MONEY_is_amount|]. split; [exact Hr|].
  exact (proj1 (proj1 (valueBalance_verdicts sample_MAX_MONEY_is_amount
                         tx_delta_no_sapling)) Hr).
Defined.

Lemma duplicate_verdicts_witness :
  MAX_MONEY_is_amount /\
  result (CheckTransaction tx_twice) = Invalid "bad-txns-inputs-duplicate" /\
  shape_ok tx_twice /\ values_ok tx_twice /\ ~ NoDup (prevouts tx_twice).
Proof.
  assert (Hr : result (CheckTransaction tx_twice)
               = Invalid "bad-txns-inputs-duplicate")
    by (vm_compute; reflexivity).
  split; [exact sample_MAX_MONEY_is_amount|]. split; [exact Hr|].
  exact (proj1 (proj1 (duplicate_verdicts sample_MAX_MONEY_is_amount tx_twice)) Hr).
Defined.

Lemma role_verdicts_witness :
  MAX_MONEY_is_amount /\
  result (CheckTransaction tx_null_second_input) = Invalid "bad-txns-prevout-null" /\
  shape_ok tx_null_second_input /\ values_ok tx_null_second_input /\
  keys_distinct tx_null_second_input /\ IsCoinBase tx_null_second_input = false /\
  Exists (fun txin => COutPoint_IsNull (prevout txin) = true)
         (vin tx_null_second_input).
Proof.
  assert (Hr : result (CheckTransaction tx_null_second_input)
               = Invalid "bad-txns-prevout-null")
    by (vm_compute; reflexivity).
  split; [exact sample_MAX_MONEY_is_amount|]. split; [exact Hr|].
  exact (proj1 (proj1 (proj2 (role_verdicts sample_MAX_MONEY_is_amount
                                tx_null_second_input))) Hr).
Defined.

Lemma input_total_verdict_witness :
  MAX_MONEY_is_amount /\
  result (CheckTransaction tx_inflow_overflow)
  = Invalid "bad-txns-txintotal-toolarge" /\
  shape_ok tx_inflow_overflow /\ vout_ok tx_inflow_overflow /\
  delta_ok tx_inflow_overflow /\
  Forall joinsplit_ok (vJoinSplit tx_inflow_overflow) /\
  out_total tx_inflow_overflow <= MAX_MONEY /\
  MAX_MONEY < in_total tx_inflow_overflow.
Proof.
  assert (Hr : result (CheckTransaction tx_inflow_overflow)
               = Invalid "bad-txns-txintotal-toolarge")
    by (vm_compute; reflexivity).
  split; [exact sample_MAX_MONEY_is_amount|]. split; [exact Hr|].
  exact (proj1 (input_total_verdict sample_MAX_MONEY_is_amount tx_inflow_overflow) Hr).
Defined.

Lemma first_bad_output_verdict_witness :
  MAX_MONEY_is_amount /\
  shape_ok tx_negative_second_output /\
  vout tx_negative_second_output = [mkTxOut 5000 []] ++ mkTxOut (-1) [] :: [] /\
  Forall (fun o => in_money_range (nValue o)) [mkTxOut 5000 []] /\
  sum_amounts nValue [mkTxOut 5000 []] <= MAX_MONEY /\
  result (CheckTransaction tx_negative_second_output)
  = Invalid "bad-txns-vout-negative".
Proof.
  assert (Hshape : shape_ok tx_negative_second_output)
    by (apply tx_shape_ok_sample; [discriminate | discriminate | vm_compute; discriminate]).
  assert (Hall : Forall (fun o => in_money_range (nValue o)) [mkTxOut 5000 []])
    by (repeat constructor; vm_compute; discriminate).
  assert (Hsum : sum_amounts nValue [mkTxOut 5000 []] <= MAX_MONEY)
    by (vm_compute; discriminate).
  split; [exact sample_MAX_MONEY_is_amount|]. split; [exact Hshape|].
  split; [reflexivity|]. split; [exact Hall|]. split; [exact Hsum|].
  apply (proj1 (first_bad_output_verdict sample_MAX_MONEY_is_amount
                  tx_negative_second_output [mkTxOut 5000 []] [] (mkTxOut (-1) [])
                  Hshape eq_refl Hall Hsum)).
  simpl. lia.
Defined.

Lemma first_bad_joinsplit_verdict_witness :
  MAX_MONEY_is_amount /\
  shape_ok tx_negative_then_both /\ vout_ok tx_negative_then_both /\
  delta_ok tx_negative_then_both /\
  vJoinSplit tx_negative_then_both
  = [] ++ mkJS (-1) 0 (1, 2)%N :: [mkJS 1 1 (3, 4)%N] /\
  result (CheckTransaction tx_negative_then_both)
  = Invalid "bad-txns-vpub_old-negative".
Proof.
  assert (Hshape : shape_ok tx_negative_then_both).
  { split; [intros (E & _); discriminate E|].
    split; [intros (_ & E & _); discriminate E | vm_compute; discriminate]. }
  assert (Hvout : vout_ok tx_negative_then_both)
    by (split; [constructor | vm_compute; discriminate]).
  assert (Hdelta : delta_ok tx_negative_then_both).
  { split; [intros _ _; reflexivity|].
    split; [split; vm_compute; discriminate | vm_compute; discriminate]. }
  split; [exact sample_MAX_MONEY_is_amount|]. split; [exact Hshape|].
  split; [exact Hvout|]. split; [exact Hdelta|]. split; [reflexivity|].
  refine (proj1 (first_bad_joinsplit_verdict sample_MAX_MONEY_is_amount
                   tx_negative_then_both [] [mkJS 1 1 (3, 4)%N]
                   (mkJS (-1) 0 (1, 2)%N) Hshape Hvout Hdelta eq_refl
                   ltac:(constructor) _) _).
  - vm_compute. discriminate.
  - simpl. lia.
Defined.

End MoreExamples.

Section WideExamples.
#[local] Existing Instance wide_externals.

Lemma wide_MAX_MONEY_is_amount : MAX_MONEY_is_amount.
Proof. unfold MAX_MONEY_is_amount, INT64_MAX. simpl. lia. Defined.


End WideExamples.

Section MinerExamples.
#[local] Existing Instance sample_miner.

Lemma sample_nonce_laws : nonce_laws.
Proof.
  split; intros nonce; simpl.
  - apply Z.mod_pos_bound. lia.
  - rewrite N2Z.inj_mod, N2Z.inj_add. change (Z.of_N (2 ^ 256)) with (2 ^ 256).
    change (Z.of_N 1) with 1.
    rewrite Z.mod_mod_divide by (exists (2 ^ 192); reflexivity).
    rewrite Z.add_mod_idemp_l by lia. reflexivity.
Defined.

(** From position [0xFFFA] there are five runs, on the next five nonces, and
    nine of the fourteen tries are left. *)
Lemma mine_loop_window_witness :
  nonce_laws /\
  solver_calls (mine_loop 14 65530%N []) = [65531; 65532; 65533; 65534; 65535]%N /\
  nMaxTries_left (mine_loop 14 65530%N []) = 9%nat /\
  let r := mine_loop 14 65530%N [] in
  solver_calls r = successors (length (solver_calls r)) 65530%N /\
  GetUint64_0 (nNonce r) = GetUint64_0 65530%N + Z.of_nat (length (solver_calls r)) /\
  GetUint64_0 (nNonce r) / 2 ^ 16 = GetUint64_0 65530%N / 2 ^ 16 /\
  Z.of_nat (length (solver_calls r)) <= nInnerLoopCount - inner_loop_position 65530%N /\
  (nInnerLoopCount - inner_loop_position 65530%N < Z.of_nat 14 ->
   (0 < nMaxTries_left r)%nat).
Proof.
  split; [exact sample_nonce_laws|]. split; [vm_compute; reflexivity|].
  split; [vm_compute; reflexivity|].
  exact (mine_loop_window 14 65530%N [] sample_nonce_laws).
Defined.

End MinerExamples.

Section FetchExamples.
#[local] Existing Instance sample_fetch.


End FetchExamples.
